(** * GEMV demo (numba-cuda/demo.py): kernels, launcher, validator, timer, CLI

    A shallow embedding of [demo.py].  Python floats are read as exact
    rationals ([Q]); array indices and shapes are naturals.  Device code is
    compiled without bounds checks, so a read past the end of an array has
    no defined value there: [at1] gives [0] for it and an in-place store past
    the end changes nothing.  The statements below only rely on in-range
    accesses. *)

From Stdlib Require Import QArith Qabs ZArith Lia Lqa List Permutation Ascii String.
From stdpp Require Import list strings.

(** ** Arrays *)

(** A 2-d float64 array in Fortran (column-major) order, as produced by
    [np.asarray(..., order='F')]: element [(i, j)] lives at [i + j*shape0]. *)
Record ndarray2 := mk_ndarray2 {
  shape0 : nat;
  shape1 : nat;
  data : list Q
}.

Definition at1 (v : list Q) (i : nat) : Q := default 0%Q (v !! i).

Definition at2 (A : ndarray2) (i j : nat) : Q := at1 (data A) (i + j * shape0 A).

(** The mathematical reduction [f lo + f (lo+1) + ... + f (lo+n-1)], written
    independently of the order in which any kernel accumulates it. *)
Fixpoint big_sum (f : nat -> Q) (lo n : nat) : Q :=
  match n with
  | O => 0%Q
  | S n' => (f lo + big_sum f (S lo) n')%Q
  end.

(** [sum over j < n of A[i,j]*x[j]] *)
Definition row_dot (A : ndarray2) (x : list Q) (i n : nat) : Q :=
  big_sum (fun j => at2 A i j * at1 x j)%Q 0 n.

(** ** Device kernels *)

Definition BLOCK_SIZE : nat := 128.

(** [cuda.grid(1)] of the thread [threadIdx] of block [blockIdx]. *)
Definition cuda_grid (blockDim blockIdx threadIdx : nat) : nat :=
  threadIdx + blockIdx * blockDim.

(** The threads of a launch [kernel[num_blocks, block_size]], as pairs
    [(blockIdx, threadIdx)]. *)
Definition grid_threads (num_blocks block_size : nat) : list (nat * nat) :=
  b ← seq 0 num_blocks; (fun t => (b, t)) <$> seq 0 block_size.

(** [_gemv_cuda], the body run by the thread whose [cuda.grid(1)] is [i],
    on the device vector [y] that it updates in place. *)
Definition _gemv_cuda (alpha : Q) (A : ndarray2) (x : list Q) (beta : Q)
    (i : nat) (y : list Q) : list Q :=
  let N := shape0 A in
  let M := shape1 A in
  if (N <=? i)%nat then y
  else
    let prod := fold_left (fun prod j => prod + at2 A i j * at1 x j)%Q (seq 0 M) 0%Q in
    <[ i := (alpha * prod + beta * at1 y i)%Q ]> y.

(** A launch of [_gemv_cuda]: every thread of [sched] runs once, in the order
    the device happens to pick ([sched] is any ordering of the grid). *)
Definition launch_gemv_cuda (sched : list (nat * nat)) (block_size : nat)
    (alpha : Q) (A : ndarray2) (x : list Q) (beta : Q) (y : list Q) : list Q :=
  fold_left
    (fun y bt => _gemv_cuda alpha A x beta (cuda_grid block_size bt.1 bt.2) y)
    sched y.

(** *** The tiled kernel

    [_gemv_cuda_shared] is run by a whole block at a time, because its
    threads meet at [cuda.syncthreads()].  The barriers cut the body into
    phases; within a phase the threads of the block run in some order
    ([order ph] for phase number [ph]).  A thread whose row is [>= N] has
    returned before the first phase and takes part in none. *)

(** [cuda.shared.array(shape=BLOCK_SIZE, ...)]: not initialised, so its
    contents [junk] are whatever the block finds there. *)
Definition shared_array (junk : nat -> Q) : list Q := junk <$> seq 0 BLOCK_SIZE.

(** Threads of block [blk] that pass [if i >= N: return], in order. *)
Definition survivors (N bsize blk : nat) (order : list nat) : list nat :=
  filter (fun tid => cuda_grid bsize blk tid < N)%nat order.

(** [lx[tid] = x[tid + b*bsize]] *)
Definition load_tile (x : list Q) (bsize b tid : nat) (lx : list Q) : list Q :=
  <[ tid := at1 x (tid + b * bsize) ]> lx.

(** [for j in range(BLOCK_SIZE): prod += A[i, j + b*bsize]*lx[j]] *)
Definition accumulate_tile (A : ndarray2) (bsize b i : nat) (lx : list Q)
    (prod : Q) : Q :=
  fold_left (fun prod j => prod + at2 A i (j + b * bsize) * at1 lx j)%Q
    (seq 0 BLOCK_SIZE) prod.

(** One iteration [b] of the tile loop for the block: loads, barrier,
    accumulation, barrier.  The state is the tile buffer [lx] and the
    register [prod] of each thread, indexed by [tid]. *)
Definition tile_iteration (A : ndarray2) (x : list Q) (bsize blk : nat)
    (order : nat -> list nat) (b : nat) (st : list Q * list Q) : list Q * list Q :=
  let N := shape0 A in
  let lx :=
    fold_left (fun lx tid => load_tile x bsize b tid lx)
      (survivors N bsize blk (order (2 * b))) st.1 in
  let prods :=
    fold_left
      (fun ps tid =>
         <[ tid := accumulate_tile A bsize b (cuda_grid bsize blk tid) lx (at1 ps tid) ]> ps)
      (survivors N bsize blk (order (2 * b + 1))) st.2 in
  (lx, prods).

Definition _gemv_cuda_shared (alpha : Q) (A : ndarray2) (x : list Q) (beta : Q)
    (bsize blk : nat) (order : nat -> list nat) (junk : nat -> Q)
    (y : list Q) : list Q :=
  let N := shape0 A in
  let M := shape1 A in
  let num_blocks := (M / bsize)%nat in
  let st :=
    fold_left (fun st b => tile_iteration A x bsize blk order b st)
      (seq 0 num_blocks) (shared_array junk, repeat 0%Q bsize) in
  fold_left
    (fun y tid =>
       let i := cuda_grid bsize blk tid in
       <[ i := (alpha * at1 st.2 tid + beta * at1 y i)%Q ]> y)
    (survivors N bsize blk (order (2 * num_blocks))) y.

(** A launch of [_gemv_cuda_shared]: the blocks run in the order [blocks];
    block [blk] schedules its threads by [order blk] and finds [junk blk] in
    its shared array. *)
Definition launch_gemv_cuda_shared (blocks : list nat)
    (order : nat -> nat -> list nat) (junk : nat -> nat -> Q) (bsize : nat)
    (alpha : Q) (A : ndarray2) (x : list Q) (beta : Q) (y : list Q) : list Q :=
  fold_left
    (fun y blk => _gemv_cuda_shared alpha A x beta bsize blk (order blk) (junk blk) y)
    blocks y.

(** The launch configuration computed by [gemv_v3]. *)
Definition grid_blocks (N : nat) : nat :=
  let num_blocks := (N / BLOCK_SIZE)%nat in
  if negb (N mod BLOCK_SIZE =? 0)%nat then (num_blocks + 1)%nat else num_blocks.

(** ** Sample data

    [np.ones], and a small stock of concrete arrays and schedules on which
    the statements below are run. *)

Definition np_ones (n : nat) : list Q := repeat 1%Q n.

Definition ones_matrix (N M : nat) : ndarray2 := mk_ndarray2 N M (np_ones (N * M)).

(** Blocks in launch order, threads by increasing [threadIdx] at each phase. *)
Definition in_order (bsize : nat) : nat -> nat -> list nat := fun _ _ => seq 0 bsize.

(** Shared memory found holding the same value [q] everywhere. *)
Definition junk_const (q : Q) : nat -> nat -> Q := fun _ _ => q.

(** ** Timers *)

(** [time_region]: the offset given at construction and the two marks, which
    exist only once [__enter__] and [__exit__] have run. *)
Record time_region := mk_time_region {
  _time_off : Q;
  _t_start : option Q;
  _t_end : option Q
}.

Definition time_region_init (time_offset : Q) : time_region :=
  mk_time_region time_offset None None.

(** [__enter__] and [__exit__], given the reading of [time.time()]. *)
Definition time_region_enter (now : Q) (t : time_region) : time_region :=
  mk_time_region (_time_off t) (Some now) (_t_end t).

Definition time_region_exit (now : Q) (t : time_region) : time_region :=
  mk_time_region (_time_off t) (_t_start t) (Some now).

(** [elapsed_time]; reading a mark that was never set raises. *)
Definition elapsed_time (t : time_region) : option Q :=
  match _t_start t, _t_end t with
  | Some t_start, Some t_end => Some (_time_off t + (t_end - t_start))%Q
  | _, _ => None
  end.

(** [with time_region(time_offset) as t: ...] entered at [t_in], left at [t_out]. *)
Definition timed_region (time_offset t_in t_out : Q) : time_region :=
  time_region_exit t_out (time_region_enter t_in (time_region_init time_offset)).

(** Regions run one after the other, each constructed with the elapsed time
    of the one before as its offset (as [gemv_v3] does with [t_xfer]). *)
Fixpoint chained_regions (time_offset : Q) (marks : list (Q * Q)) : option Q :=
  match marks with
  | [] => Some time_offset
  | (t_in, t_out) :: rest =>
      match elapsed_time (timed_region time_offset t_in t_out) with
      | Some t => chained_regions t rest
      | None => None
      end
  end.

(** Sum of the durations of the regions. *)
Definition total_duration (marks : list (Q * Q)) : Q :=
  foldr Qplus 0%Q ((fun m => m.2 - m.1)%Q <$> marks).

(** [time_region_cuda]: the marks are device events, read in milliseconds by
    [cuda.event_elapsed_time]. *)
Record time_region_cuda := mk_time_region_cuda {
  cuda_time_off : Q;
  cuda_t_start : option Q;
  cuda_t_end : option Q
}.

Definition elapsed_time_cuda (t : time_region_cuda) : option Q :=
  match cuda_t_start t, cuda_t_end t with
  | Some t_start, Some t_end => Some (cuda_time_off t + 1e-3 * (t_end - t_start))%Q
  | _, _ => None
  end.

(** ** NumPy expressions *)

(** Pairing of the elements of two 1-d operands: same length, or one of them
    of length one and repeated; any other pair of shapes raises. *)
Definition np_broadcast (a b : list Q) : option (list (Q * Q)) :=
  if (length a =? length b)%nat then Some (zip a b)
  else if (length a =? 1)%nat then Some ((fun q => (at1 a 0, q)) <$> b)
  else if (length b =? 1)%nat then Some ((fun p => (p, at1 b 0)) <$> a)
  else None.

(** [A @ x] *)
Definition np_matmul (A : ndarray2) (x : list Q) : option (list Q) :=
  if (length x =? shape1 A)%nat
  then Some ((fun i => row_dot A x i (shape1 A)) <$> seq 0 (shape0 A))
  else None.

(** [c * v] for a scalar [c] *)
Definition np_scale (c : Q) (v : list Q) : list Q := Qmult c <$> v.

(** [u + v] *)
Definition np_add (u v : list Q) : option (list Q) :=
  match np_broadcast u v with
  | Some ps => Some ((fun p : Q * Q => p.1 + p.2)%Q <$> ps)
  | None => None
  end.

(** [np.isclose]/[np.allclose] on finite values:
    [|a - b| <= atol + rtol*|b|], for every pair of elements. *)
Definition np_isclose (rtol atol a b : Q) : bool :=
  Qle_bool (Qabs (a - b)) (atol + rtol * Qabs b).

Definition np_allclose (rtol atol : Q) (a b : list Q) : option bool :=
  match np_broadcast a b with
  | Some ps => Some (forallb (fun p : Q * Q => np_isclose rtol atol p.1 p.2) ps)
  | None => None
  end.

(** [validate], with the default tolerances of [np.allclose]. *)
Definition validate (found expected : list Q) : option bool :=
  np_allclose 1e-5 1e-8 found expected.

(** ** The run: memory, output, and what the run does not determine *)

Inductive ndarray :=
  | Arr1 (v : list Q)
  | Arr2 (A : ndarray2).

Inductive kernel := K_gemv_cuda | K_gemv_cuda_shared.

(** [kernel[num_blocks, block_size](...)] *)
Record launch := mk_launch {
  launched : kernel;
  launch_blocks : nat;
  launch_block_size : nat
}.

(** What the program prints, one constructor per [print]. *)
Inductive line :=
  | Usage
  | Err_too_few_arguments
  | Err_dimension_not_integer
  | Err_no_such_kernel (version : string)
  | Available_versions (versions : list string)
  | Err_dimension_not_positive
  | Cuda_transfer_times (t : Q)
  | Cuda_kernel_time (t : Q)
  | Elapsed_time (t : Q)
  | Err_not_validated
  | Found (y : list Q)
  | Expected (y_ref : list Q).

(** Host arrays and device arrays live in two stores and are named by their
    position there; [launches] and [printed] grow at the end. *)
Record world := mk_world {
  host : list ndarray;
  device : list ndarray;
  launches : list launch;
  printed : list line;
  ticks : nat;
  draws : nat
}.

(** The clock, the random generator, the contents of fresh memory and the
    schedulers: given, not computed. *)
Record runtime := mk_runtime {
  time_time : nat -> Q;
  event_time : nat -> Q;
  random_sample : nat -> Q;
  np_empty_junk : nat -> Q;
  prange_order : nat -> list nat;
  cuda_order : nat -> nat -> list (nat * nat);
  cuda_blocks : nat -> list nat;
  cuda_phase_order : nat -> nat -> list nat;
  cuda_shared_junk : nat -> nat -> Q
}.

(** A computation either returns or raises ([None]); the world goes on in
    both cases. *)
Definition IO (A : Type) : Type := world -> option A * world.

Definition ret {A : Type} (a : A) : IO A := fun w => (Some a, w).

Definition raise {A : Type} : IO A := fun w => (None, w).

Definition bind {A B : Type} (m : IO A) (k : A -> IO B) : IO B :=
  fun w =>
    match m w with
    | (Some a, w') => k a w'
    | (None, w') => (None, w')
    end.

Notation "'let!' x ':=' m 'in' k" := (bind m (fun x => k))
  (at level 10, x pattern, m at level 100, k at level 200).

Definition get {A : Type} (o : option A) : IO A :=
  match o with
  | Some a => ret a
  | None => raise
  end.

Fixpoint for_each {A : Type} (l : list A) (body : A -> IO unit) : IO unit :=
  match l with
  | [] => ret tt
  | a :: l' => let! _ := body a in for_each l' body
  end.

Definition set_host (h : list ndarray) (w : world) : world :=
  mk_world h (device w) (launches w) (printed w) (ticks w) (draws w).

Definition set_device (d : list ndarray) (w : world) : world :=
  mk_world (host w) d (launches w) (printed w) (ticks w) (draws w).

Definition print (l : line) : IO unit :=
  fun w => (Some tt, mk_world (host w) (device w) (launches w) (printed w ++ [l])
                       (ticks w) (draws w)).

Definition log_launch (l : launch) : IO unit :=
  fun w => (Some tt, mk_world (host w) (device w) (launches w ++ [l]) (printed w)
                       (ticks w) (draws w)).

Definition tick : IO nat :=
  fun w => (Some (ticks w), mk_world (host w) (device w) (launches w) (printed w)
                              (S (ticks w)) (draws w)).

Definition draw (count : nat) : IO nat :=
  fun w => (Some (draws w), mk_world (host w) (device w) (launches w) (printed w)
                              (ticks w) (draws w + count)).

(** A new host array; its reference is returned. *)
Definition host_alloc (a : ndarray) : IO nat :=
  fun w => (Some (length (host w)), set_host (host w ++ [a]) w).

Definition host_read (r : nat) : IO ndarray := fun w => (host w !! r, w).

Definition device_alloc (a : ndarray) : IO nat :=
  fun w => (Some (length (device w)), set_device (device w ++ [a]) w).

Definition device_read (r : nat) : IO ndarray := fun w => (device w !! r, w).

Definition device_write (r : nat) (a : ndarray) : IO unit :=
  fun w => (Some tt, set_device (<[ r := a ]> (device w)) w).

Definition as_1d (a : ndarray) : IO (list Q) :=
  match a with
  | Arr1 v => ret v
  | Arr2 _ => raise
  end.

Definition as_2d (a : ndarray) : IO ndarray2 :=
  match a with
  | Arr1 _ => raise
  | Arr2 A => ret A
  end.

(** [r[i] = v] on the host array [r] *)
Definition host_setitem (r i : nat) (v : Q) : IO unit :=
  fun w =>
    match host w !! r with
    | Some (Arr1 l) => (Some tt, set_host (<[ r := Arr1 (<[ i := v ]> l) ]> (host w)) w)
    | _ => (None, w)
    end.

(** [np.empty(N)]: fresh, with whatever the memory held. *)
Definition np_empty (rt : runtime) (N : nat) : list Q := np_empty_junk rt <$> seq 0 N.

(** [np.random.rand(N)] *)
Definition np_random_rand (rt : runtime) (N : nat) : IO nat :=
  let! k := draw N in
  host_alloc (Arr1 ((fun i => random_sample rt (k + i)) <$> seq 0 N)).

(** [np.asarray(np.random.rand(N, M), order='F')]: the samples fill the
    array row by row and are then laid out by columns. *)
Definition np_random_rand_F (rt : runtime) (N M : nat) : IO nat :=
  let! k := draw (N * M) in
  host_alloc
    (Arr2 (mk_ndarray2 N M
             ((fun p => random_sample rt (k + (p mod N) * M + p / N)) <$> seq 0 (N * M)))).

(** [with time_region(time_offset) as t: body] *)
Definition with_time_region {A : Type} (rt : runtime) (time_offset : Q)
    (body : IO A) : IO (time_region * A) :=
  let t := time_region_init time_offset in
  let! k := tick in
  let t := time_region_enter (time_time rt k) t in
  let! a := body in
  let! k := tick in
  let t := time_region_exit (time_time rt k) t in
  ret (t, a).

(** [with time_region_cuda(time_offset) as t: body] *)
Definition with_time_region_cuda {A : Type} (rt : runtime) (time_offset : Q)
    (body : IO A) : IO (time_region_cuda * A) :=
  let! k := tick in
  let t_start := event_time rt k in
  let! a := body in
  let! k := tick in
  let t_end := event_time rt k in
  ret (mk_time_region_cuda time_offset (Some t_start) (Some t_end), a).

(** ** The gemv variants *)

(** Body of the outer loop of [gemv_v1] for row [i]; the inner [prange] is
    nested in a parallel loop and runs as a plain [range]. *)
Definition gemv_v1_row (alpha : Q) (A x : nat) (beta : Q) (y y_ret i : nat) : IO unit :=
  let! a := bind (host_read A) as_2d in
  let! xv := bind (host_read x) as_1d in
  let! yv := bind (host_read y) as_1d in
  let prod :=
    fold_left (fun prod j => prod + at2 a i j * at1 xv j)%Q (seq 0 (shape1 a)) 0%Q in
  host_setitem y_ret i (alpha * prod + beta * at1 yv i)%Q.

(** [gemv_v1]: the rows are taken in the order numba runs the [prange]. *)
Definition gemv_v1 (rt : runtime) (alpha : Q) (A x : nat) (beta : Q) (y : nat) : IO nat :=
  let! a := bind (host_read A) as_2d in
  let N := shape0 a in
  let! y_ret := host_alloc (Arr1 (np_empty rt N)) in
  let! _ := for_each (prange_order rt N) (gemv_v1_row alpha A x beta y y_ret) in
  ret y_ret.

(** [gemv_v2]: [alpha*(A @ x) + beta*y], each intermediate a new array. *)
Definition gemv_v2 (alpha : Q) (A x : nat) (beta : Q) (y : nat) : IO nat :=
  let! a := bind (host_read A) as_2d in
  let! xv := bind (host_read x) as_1d in
  let! Ax := get (np_matmul a xv) in
  let! t1 := host_alloc (Arr1 Ax) in
  let! t2 := host_alloc (Arr1 (np_scale alpha Ax)) in
  let! yv := bind (host_read y) as_1d in
  let! t3 := host_alloc (Arr1 (np_scale beta yv)) in
  let! sum := get (np_add (np_scale alpha Ax) (np_scale beta yv)) in
  host_alloc (Arr1 sum).

(** [cuda.to_device] and [copy_to_host] *)
Definition cuda_to_device (r : nat) : IO nat :=
  let! a := host_read r in device_alloc a.

Definition copy_to_host (d : nat) : IO nat :=
  let! a := device_read d in host_alloc a.

(** [k[num_blocks, block_size](alpha, d_A, d_x, beta, d_y)] on device
    arrays; the vector [d_y] is the one the kernel writes.  ([d_x] and [d_y]
    are distinct buffers at the only launch of the program.) *)
Definition cuda_launch (rt : runtime) (k : kernel) (num_blocks block_size : nat)
    (alpha : Q) (d_A d_x : nat) (beta : Q) (d_y : nat) : IO unit :=
  let! A := bind (device_read d_A) as_2d in
  let! x := bind (device_read d_x) as_1d in
  let! y := bind (device_read d_y) as_1d in
  let y' :=
    match k with
    | K_gemv_cuda =>
        launch_gemv_cuda (cuda_order rt num_blocks block_size) block_size alpha A x beta y
    | K_gemv_cuda_shared =>
        launch_gemv_cuda_shared (cuda_blocks rt num_blocks) (cuda_phase_order rt)
          (cuda_shared_junk rt) block_size alpha A x beta y
    end in
  let! _ := device_write d_y (Arr1 y') in
  log_launch (mk_launch k num_blocks block_size).

Definition gemv_v3 (rt : runtime) (alpha : Q) (A x : nat) (beta : Q) (y : nat) : IO nat :=
  let! (t_xfer, (d_A, d_x, d_y)) :=
    with_time_region_cuda rt 0 (
      let! d_A := cuda_to_device A in
      let! d_x := cuda_to_device x in
      let! d_y := cuda_to_device y in
      ret (d_A, d_x, d_y)) in
  let! a := bind (host_read A) as_2d in
  let N := shape0 a in
  let num_blocks := grid_blocks N in
  let! (t_kernel, _) :=
    with_time_region_cuda rt 0
      (cuda_launch rt K_gemv_cuda num_blocks BLOCK_SIZE alpha d_A d_x beta d_y) in
  let! xfer := get (elapsed_time_cuda t_xfer) in
  let! (t_xfer, y_ret) := with_time_region_cuda rt xfer (copy_to_host d_y) in
  let! xfer := get (elapsed_time_cuda t_xfer) in
  let! _ := print (Cuda_transfer_times xfer) in
  let! kern := get (elapsed_time_cuda t_kernel) in
  let! _ := print (Cuda_kernel_time kern) in
  ret y_ret.

(** ** The command line *)

(** The command-line arguments are strings of ASCII characters; [is_ascii]
    says so of one of them.  (On other characters [int] follows the Unicode
    tables of digits and blanks.) *)
Definition is_ascii (s : string) : bool :=
  forallb (fun c => (nat_of_ascii c <? 128)%nat) (list_ascii_of_string s).

(** [int(s)] for a string of ASCII characters: blanks around (tab, line
    feed, vertical tab, form feed, carriage return, space), an optional
    sign, then decimal digits, single underscores allowed between digits,
    and no more digits than [sys.get_int_max_str_digits()], which the
    program leaves at its default.  [None] is [ValueError]. *)
Definition is_space (c : ascii) : bool :=
  let n := nat_of_ascii c in
  ((9 <=? n) && (n <=? 13) || (n =? 32))%nat.

Definition max_str_digits : nat := 4300.

Definition digit_value (c : ascii) : option Z :=
  let n := nat_of_ascii c in
  if ((48 <=? n) && (n <=? 57))%nat then Some (Z.of_nat (n - 48)) else None.

Fixpoint parse_digits (acc : Z) (after_digit : bool) (s : list ascii) : option Z :=
  match s with
  | [] => if after_digit then Some acc else None
  | c :: s' =>
      if Ascii.eqb c "_" then
        if after_digit then parse_digits acc false s' else None
      else
        match digit_value c with
        | Some d => parse_digits (10 * acc + d) true s'
        | None => None
        end
  end.

Fixpoint lstrip (s : list ascii) : list ascii :=
  match s with
  | c :: s' => if is_space c then lstrip s' else s
  | [] => []
  end.

Definition strip (s : list ascii) : list ascii := rev (lstrip (rev (lstrip s))).

Definition count_digits (s : list ascii) : nat :=
  length (filter (fun c => is_Some (digit_value c)) s).

Definition py_int (s : string) : option Z :=
  let body := strip (list_ascii_of_string s) in
  if (max_str_digits <? count_digits body)%nat then None
  else
    match body with
    | c :: s' =>
        if Ascii.eqb c "-" then Z.opp <$> parse_digits 0 false s'
        else if Ascii.eqb c "+" then parse_digits 0 false s'
        else parse_digits 0 false (c :: s')
    | [] => None
    end.

(** [name.startswith(p)] *)
Fixpoint startswith (p name : string) : bool :=
  match p, name with
  | EmptyString, _ => true
  | String a p', String b name' => Ascii.eqb a b && startswith p' name'
  | String _ _, EmptyString => false
  end.

(** [name.split('_', maxsplit=1)[1]]; [None] is [IndexError]. *)
Fixpoint after_underscore (name : string) : option string :=
  match name with
  | EmptyString => None
  | String c name' => if Ascii.eqb c "_" then Some name' else after_underscore name'
  end.

(** What a global name of the module is bound to: one of the functions
    called as [f(alpha, A, x, beta, y)], or anything else, which raises
    when called that way. *)
Inductive pyobj :=
  | Py_gemv (f : runtime -> Q -> nat -> nat -> Q -> nat -> IO nat)
  | Py_other.

Definition call (f : pyobj) (rt : runtime) (alpha : Q) (A x : nat) (beta : Q)
    (y : nat) : IO nat :=
  match f with
  | Py_gemv f => f rt alpha A x beta y
  | Py_other => raise
  end.

(** [globals()], in order of definition, when the lookup of the kernel runs. *)
Definition module_globals : list (string * pyobj) :=
  [ ("__name__", Py_other); ("__doc__", Py_other); ("__package__", Py_other);
    ("__loader__", Py_other); ("__spec__", Py_other); ("__annotations__", Py_other);
    ("__builtins__", Py_other); ("__file__", Py_other); ("__cached__", Py_other);
    ("math", Py_other); ("numba", Py_other); ("cuda", Py_other); ("np", Py_other);
    ("sys", Py_other); ("time", Py_other);
    ("print_usage", Py_other); ("time_region", Py_other);
    ("time_region_cuda", Py_other);
    ("gemv_v1", Py_gemv gemv_v1);
    ("gemv_v2", Py_gemv (fun _ => gemv_v2));
    ("_gemv_cuda", Py_other); ("BLOCK_SIZE", Py_other);
    ("_gemv_cuda_shared", Py_other);
    ("gemv_v3", Py_gemv gemv_v3);
    ("_vecadd_cuda", Py_other); ("vecadd", Py_other); ("validate", Py_other);
    ("N", Py_other); ("version", Py_other) ]%string.

(** [G[name]]; [None] is [KeyError]. *)
Fixpoint lookup_global (G : list (string * pyobj)) (name : string) : option pyobj :=
  match G with
  | [] => None
  | (k, v) :: G' => if String.eqb k name then Some v else lookup_global G' name
  end.

(** The versions listed after an unknown tag. *)
Definition available_versions (G : list (string * pyobj)) : list string :=
  omap (fun kv : string * pyobj =>
          if startswith "gemv_" kv.1 then after_underscore kv.1 else None) G.

Definition argv_at (argv : list string) (i : nat) : string := default EmptyString (argv !! i).

(** Lines 210 to 223 of the [__main__] block: the operands are made, the
    selected kernel is timed on them, the reference is computed; the result
    is the pair of vectors handed to [validate]. *)
Definition solve (rt : runtime) (kernel : pyobj) (N : Z) : IO (list Q * list Q) :=
  let! A := np_random_rand_F rt (Z.to_nat N) (Z.to_nat N) in
  let! x := np_random_rand rt (Z.to_nat N) in
  let! y_orig := host_alloc (Arr1 (np_ones (Z.to_nat N))) in
  let alpha := 0.2%Q in
  let beta := 1%Q in
  let! (t_kernel, y) := with_time_region rt 0 (call kernel rt alpha A x beta y_orig) in
  let! elapsed := get (elapsed_time t_kernel) in
  let! _ := print (Elapsed_time elapsed) in
  let! y_ref := gemv_v2 alpha A x beta y_orig in
  let! found := bind (host_read y) as_1d in
  let! expected := bind (host_read y_ref) as_1d in
  ret (found, expected).

(** The [__main__] block, over the globals [G]; the value returned is the
    status of [sys.exit], or [0] when the block runs to its end. *)
Definition main_block (G : list (string * pyobj)) (rt : runtime)
    (argv : list string) : IO Z :=
  if (length argv <? 3)%nat then
    let! _ := print Err_too_few_arguments in
    let! _ := print Usage in
    ret 1%Z
  else
    match py_int (argv_at argv 1) with
    | None =>
        let! _ := print Err_dimension_not_integer in
        ret 1%Z
    | Some N =>
        let version := argv_at argv 2 in
        match lookup_global G ("gemv_" +:+ version) with
        | None =>
            let! _ := print (Err_no_such_kernel version) in
            let! _ := print (Available_versions (available_versions G)) in
            ret 1%Z
        | Some kernel =>
            if (N <=? 0)%Z then
              let! _ := print Err_dimension_not_positive in
              ret 1%Z
            else
              let! (found, expected) := solve rt kernel N in
              let! valid := get (validate found expected) in
              if negb valid then
                let! _ := print Err_not_validated in
                let! _ := print (Found found) in
                let! _ := print (Expected expected) in
                ret 1%Z
              else ret 0%Z
        end
    end.

(** The run reaches [validate] with [found] and [expected], and [validate]
    rejects them. *)
Definition validation_fails (G : list (string * pyobj)) (rt : runtime)
    (argv : list string) (w : world) (found expected : list Q) : Prop :=
  exists N kernel w',
    3 <= length argv
    /\ py_int (argv_at argv 1) = Some N
    /\ lookup_global G ("gemv_" +:+ argv_at argv 2) = Some kernel
    /\ (0 < N)%Z
    /\ solve rt kernel N w = (Some (found, expected), w')
    /\ validate found expected = Some false.

(** No run-time error: whenever the arguments are accepted, the kernel and
    the reference give two vectors of the same length. *)
Definition runs_through (G : list (string * pyobj)) (rt : runtime)
    (argv : list string) (w : world) : Prop :=
  forall N kernel,
    py_int (argv_at argv 1) = Some N ->
    lookup_global G ("gemv_" +:+ argv_at argv 2) = Some kernel ->
    (0 < N)%Z ->
    exists found expected w',
      solve rt kernel N w = (Some (found, expected), w')
      /\ length found = length expected.

(** Globals with a single kernel, which hands back [y] untouched. *)
Definition perturbed_globals : list (string * pyobj) :=
  [("gemv_bad"%string, Py_gemv (fun _ _ _ _ _ y => ret y))].

(** Exit status of the interpreter: that of [sys.exit], [1] after an
    exception nobody caught. *)
Definition exit_status (r : option Z) : Z := default 1%Z r.

Definition empty_world : world := mk_world [] [] [] [] 0 0.

(** The program as run: [python demo.py argv[1] argv[2] ...]. *)
Definition main (rt : runtime) (argv : list string) : Z * world :=
  let r := main_block module_globals rt argv empty_world in
  (exit_status r.1, r.2).

(** A run-time on which the statements are tried: a clock that advances by
    one second per reading, samples [1/2, 1/3, 1/4, ...], loops and grids
    taken in reverse. *)
Definition sample_runtime : runtime :=
  mk_runtime (fun k => inject_Z (Z.of_nat k)) (fun k => inject_Z (Z.of_nat (1000 * k)))
    (fun k => 1 # Pos.of_nat (k + 2)) (fun _ => 7%Q)
    (fun N => rev (seq 0 N))
    (fun num_blocks block_size => rev (grid_threads num_blocks block_size))
    (fun num_blocks => rev (seq 0 num_blocks))
    (fun _ _ => rev (seq 0 BLOCK_SIZE))
    (fun _ _ => 7%Q).

(** ** What the variants are expected to leave *)

(** The value of row [i] after the loop of [gemv_v1] or of [_gemv_cuda]:
    [alpha*prod + beta*y[i]], [prod] accumulated from left to right. *)
Definition gemv_row (alpha : Q) (A : ndarray2) (x : list Q) (beta : Q) (y : list Q)
    (i : nat) : Q :=
  (alpha * fold_left (fun prod j => prod + at2 A i j * at1 x j) (seq 0 (shape1 A)) 0
   + beta * at1 y i)%Q.

(** A call [f(alpha, A, x, beta, y)] leaves every host array that existed
    before it as it was, and what it returns is an array made during the
    call. *)
Definition keeps_host_arrays (f : Q -> nat -> nat -> Q -> nat -> IO nat) : Prop :=
  forall alpha A x beta y w,
    (forall r, r < length (host w) ->
               host (f alpha A x beta y w).2 !! r = host w !! r)
    /\ (forall y_ret, (f alpha A x beta y w).1 = Some y_ret ->
                      length (host w) <= y_ret < length (host (f alpha A x beta y w).2)).

(** The schedulers of a run-time are orderings of what they schedule. *)
Definition fair (rt : runtime) : Prop :=
  (forall N, prange_order rt N ≡ₚ seq 0 N)
  /\ (forall num_blocks block_size,
        cuda_order rt num_blocks block_size ≡ₚ grid_threads num_blocks block_size)
  /\ (forall num_blocks, cuda_blocks rt num_blocks ≡ₚ seq 0 num_blocks)
  /\ (forall blk ph, cuda_phase_order rt blk ph ≡ₚ seq 0 BLOCK_SIZE).

(** The three arguments of a call name a matrix and two vectors of matching
    shapes in the host store. *)
Definition gemv_operands (w : world) (A x y : nat) (a : ndarray2) (xv yv : list Q) : Prop :=
  host w !! A = Some (Arr2 a) /\ host w !! x = Some (Arr1 xv)
  /\ host w !! y = Some (Arr1 yv)
  /\ length xv = shape1 a /\ length yv = shape0 a.

(** Properties of computations used to follow the stores through a call:
    [m] leaves a field of the world as it was; [m] only adds host arrays;
    the reference [p a] found in the result [a] of [m] names an array added
    by [m]; the kernels [m] launches are all the naive one. *)
Definition unchanged {T A : Type} (field : world -> T) (m : IO A) : Prop :=
  forall w, field (m w).2 = field w.

Abbreviation host_same := (unchanged host).

Definition host_grows {A : Type} (m : IO A) : Prop :=
  forall w, exists new, host (m w).2 = host w ++ new.

Definition fresh_by {A : Type} (p : A -> nat) (m : IO A) : Prop :=
  forall w,
    (exists new, host (m w).2 = host w ++ new)
    /\ (forall a, (m w).1 = Some a -> length (host w) <= p a < length (host (m w).2)).

Definition launches_only_naive (w w' : world) : Prop :=
  exists new, launches w' = launches w ++ new
              /\ Forall (fun l => launched l = K_gemv_cuda) new.

Definition naive_launches {A : Type} (m : IO A) : Prop :=
  forall w, launches_only_naive w (m w).2.

(** The value of row [i] after the tile loop of [_gemv_cuda_shared] on a
    block all of whose threads are alive: the accumulation runs over the
    full tiles only, from left to right. *)
Definition tiled_row (alpha : Q) (A : ndarray2) (x : list Q) (beta : Q) (y : list Q)
    (i : nat) : Q :=
  (alpha * fold_left (fun prod j => prod + at2 A i j * at1 x j)
             (seq 0 (shape1 A / BLOCK_SIZE * BLOCK_SIZE)) 0
   + beta * at1 y i)%Q.

(** Two calls return references to vectors with the same contents. *)
Definition same_result (call1 call2 : IO nat) (w1 w2 : world) : Prop :=
  exists y_ret1 y_ret2 out,
    (call1 w1).1 = Some y_ret1 /\ (call2 w2).1 = Some y_ret2
    /\ host (call1 w1).2 !! y_ret1 = Some (Arr1 out)
    /\ host (call2 w2).2 !! y_ret2 = Some (Arr1 out).

(** A host store holding a [2 x 2] matrix and two vectors, at references
    [0], [1] and [2]. *)
Definition sample_world : world :=
  mk_world [Arr2 (mk_ndarray2 2 2 [1; 2; 3; 4]%Q); Arr1 [1; 1]%Q; Arr1 [10; 20]%Q]
    [] [] [] 0 0.

(** A second run-time: another clock, other samples, zeroed fresh memory,
    loops and grids taken in order. *)
Definition plain_runtime : runtime :=
  mk_runtime (fun k => inject_Z (Z.of_nat (2 * k))) (fun k => inject_Z (Z.of_nat k))
    (fun k => 1 # Pos.of_nat (k + 3)) (fun _ => 0%Q)
    (fun N => seq 0 N)
    (fun num_blocks block_size => grid_threads num_blocks block_size)
    (fun num_blocks => seq 0 num_blocks)
    (fun _ _ => seq 0 BLOCK_SIZE)
    (fun _ _ => 0%Q).

(** ** The vector addition kernel *)

(** [_vecadd_cuda], the body run by the thread whose [cuda.grid(1)] is [i],
    on the device vector [z] that it writes. *)
Definition _vecadd_cuda (x y : list Q) (i : nat) (z : list Q) : list Q :=
  let N := length x in
  if (N <=? i)%nat then z
  else <[ i := (at1 x i + at1 y i)%Q ]> z.

(** A launch [_vecadd_cuda[num_blocks, block_size](d_z, d_x, d_y)], its
    threads taken in the order [sched]. *)
Definition launch_vecadd_cuda (sched : list (nat * nat)) (block_size : nat)
    (x y z : list Q) : list Q :=
  fold_left (fun z bt => _vecadd_cuda x y (cuda_grid block_size bt.1 bt.2) z) sched z.

(** ** What a row of the tiled kernel reads

    Threads of block [blk] that pass the row guard, when the block has
    [BLOCK_SIZE] threads: those with [tid < live_threads N blk]. *)
Definition live_threads (N blk : nat) : nat := Nat.min BLOCK_SIZE (N - blk * BLOCK_SIZE).

(** The entry of the tile buffer read for column [c] by a block with [live]
    live threads: the element of [x] when a live thread loaded it, and
    otherwise what the shared array held before the launch. *)
Definition tile_value (x : list Q) (junk : nat -> Q) (live c : nat) : Q :=
  if (c mod BLOCK_SIZE <? live)%nat then at1 x c else junk (c mod BLOCK_SIZE).

(** The value row [i] ends with after a launch of [_gemv_cuda_shared] with
    blocks of [BLOCK_SIZE] threads. *)
Definition shared_row (junk : nat -> nat -> Q) (alpha : Q) (A : ndarray2) (x : list Q)
    (beta : Q) (y : list Q) (i : nat) : Q :=
  (alpha * fold_left
             (fun prod c =>
                prod + at2 A i c
                       * tile_value x (junk (i / BLOCK_SIZE)%nat)
                           (live_threads (shape0 A) (i / BLOCK_SIZE)%nat) c)
             (seq 0 (shape1 A / BLOCK_SIZE * BLOCK_SIZE)%nat) 0
   + beta * at1 y i)%Q.

(** The command line is accepted: two arguments at least, a positive
    integer dimension, and the tag of one of the three kernels. *)
Definition accepted (argv : list string) : Prop :=
  3 <= length argv
  /\ (exists N, py_int (argv_at argv 1) = Some N /\ (0 < N)%Z)
  /\ argv_at argv 2 ∈ ["v1"; "v2"; "v3"]%string.

(** At most one kernel was launched, the naive one, on blocks of
    [BLOCK_SIZE] threads. *)
Definition one_naive_launch_at_most (new : list launch) : Prop :=
  length new <= 1
  /\ Forall (fun l => launched l = K_gemv_cuda /\ launch_block_size l = BLOCK_SIZE) new.

Definition launches_once_at_most {A : Type} (m : IO A) : Prop :=
  forall w, exists new, launches (m w).2 = launches w ++ new /\ one_naive_launch_at_most new.

(** ** The vector addition wrapper *)

(** An array of the shape of [a] whose memory was not written yet and holds
    [junk]: [np.empty(a.shape)], [cuda.device_array_like(a)]. *)
Definition empty_like (junk : nat -> Q) (a : ndarray) : ndarray :=
  match a with
  | Arr1 v => Arr1 (junk <$> seq 0 (length v))
  | Arr2 A => Arr2 (mk_ndarray2 (shape0 A) (shape1 A) (junk <$> seq 0 (length (data A))))
  end.

(** [cuda.device_array_like(r)]; [device_junk] is what fresh device memory
    holds. *)
Definition cuda_device_array_like (device_junk : nat -> Q) (r : nat) : IO nat :=
  let! a := host_read r in device_alloc (empty_like device_junk a).

(** [d.copy_to_host(r)]: the device array overwrites the host array [r]. *)
Definition copy_to_host_into (d r : nat) : IO unit :=
  let! a := device_read d in
  fun w =>
    match host w !! r with
    | Some _ => (Some tt, set_host (<[ r := a ]> (host w)) w)
    | None => (None, w)
    end.

(** [_vecadd_cuda[num_blocks, block_size](d_z, d_x, d_y)] on device arrays.
    ([launches] keeps the record of the gemv kernels; it has no entry for
    this one.) *)
Definition cuda_launch_vecadd (rt : runtime) (num_blocks block_size : nat)
    (d_z d_x d_y : nat) : IO unit :=
  let! z := bind (device_read d_z) as_1d in
  let! x := bind (device_read d_x) as_1d in
  let! y := bind (device_read d_y) as_1d in
  device_write d_z
    (Arr1 (launch_vecadd_cuda (cuda_order rt num_blocks block_size) block_size x y z)).

(** [vecadd].  The grid is computed from [N], which is not an argument: it
    is the global of that name, the dimension the main block read from the
    command line. *)
Definition vecadd (rt : runtime) (device_junk : nat -> Q) (N : nat) (x y : nat) : IO nat :=
  let! xa := host_read x in
  let! r := host_alloc (empty_like (np_empty_junk rt) xa) in
  let! (t_xfer, (d_x, d_y, d_z)) :=
    with_time_region_cuda rt 0 (
      let! d_x := cuda_to_device x in
      let! d_y := cuda_to_device y in
      let! d_z := cuda_device_array_like device_junk x in
      ret (d_x, d_y, d_z)) in
  let num_blocks := grid_blocks N in
  let! (t_kernel, _) :=
    with_time_region_cuda rt 0 (cuda_launch_vecadd rt num_blocks BLOCK_SIZE d_z d_x d_y) in
  let! xfer := get (elapsed_time_cuda t_xfer) in
  let! (t_xfer, _) := with_time_region_cuda rt xfer (copy_to_host_into d_z r) in
  let! xfer := get (elapsed_time_cuda t_xfer) in
  let! _ := print (Cuda_transfer_times xfer) in
  let! kern := get (elapsed_time_cuda t_kernel) in
  let! _ := print (Cuda_kernel_time kern) in
  ret r.

(** * Properties *)

(** ** Sums and left-to-right accumulation *)

Lemma fold_left_big_sum (f : nat -> Q) (lo n : nat) (acc : Q) :
  (fold_left (fun prod j => prod + f j) (seq lo n) acc == acc + big_sum f lo n)%Q.
Proof.
  revert lo acc. induction n as [|n IH]; intros lo acc; cbn [seq fold_left big_sum].
  - ring.
  - rewrite IH. ring.
Qed.

(** ** Folding a step that only touches its own slot *)

Section pointwise.
Context {T : Type} (ix : T -> nat) (step : T -> list Q -> list Q).
Context (g : T -> Q -> Q).
Hypothesis step_length : forall t l, length (step t l) = length l.
Hypothesis step_other : forall t l k, k <> ix t -> at1 (step t l) k = at1 l k.
Hypothesis step_own :
  forall t l, ix t < length l -> at1 (step t l) (ix t) = g t (at1 l (ix t)).

Lemma fold_step_length (L : list T) (l : list Q) :
  length (fold_left (fun l t => step t l) L l) = length l.
Proof using step_length.
  revert l. induction L as [|a L IH]; intros l; cbn [fold_left]; [reflexivity|].
  now rewrite IH.
Qed.

Lemma fold_step_miss (L : list T) (l : list Q) (k : nat) :
  k ∉ ix <$> L -> at1 (fold_left (fun l t => step t l) L l) k = at1 l k.
Proof using step_other.
  revert l. induction L as [|a L IH]; intros l Hk; cbn [fold_left]; [reflexivity|].
  rewrite fmap_cons, not_elem_of_cons in Hk. destruct Hk as [Hne Hk].
  rewrite IH by exact Hk. now apply step_other.
Qed.

Lemma fold_step_hit (L : list T) (l : list Q) (t : T) :
  NoDup (ix <$> L) -> t ∈ L -> ix t < length l ->
  at1 (fold_left (fun l t => step t l) L l) (ix t) = g t (at1 l (ix t)).
Proof using step_length step_other step_own.
  revert l. induction L as [|a L IH]; intros l Hnd Hin Hlt; cbn [fold_left].
  - now apply elem_of_nil in Hin.
  - rewrite fmap_cons in Hnd. apply NoDup_cons in Hnd as [Hnotin Hnd].
    apply elem_of_cons in Hin as [->|Hin].
    + rewrite fold_step_miss by exact Hnotin. now apply step_own.
    + rewrite IH; [|assumption|assumption|now rewrite step_length].
      f_equal. apply step_other. intros Heq. apply Hnotin. rewrite <- Heq.
      now apply list_elem_of_fmap_2.
Qed.
End pointwise.

Lemma at1_insert_eq (l : list Q) (i : nat) (v : Q) :
  i < length l -> at1 (<[i := v]> l) i = v.
Proof. intros H. unfold at1. now rewrite list_lookup_insert_eq. Qed.

Lemma at1_insert_ne (l : list Q) (i k : nat) (v : Q) :
  k <> i -> at1 (<[i := v]> l) k = at1 l k.
Proof. intros H. unfold at1. now rewrite list_lookup_insert_ne by congruence. Qed.

(** ** The grid *)

Lemma grid_threads_ids (num_blocks block_size : nat) :
  (fun bt => cuda_grid block_size bt.1 bt.2) <$> grid_threads num_blocks block_size
  = seq 0 (num_blocks * block_size).
Proof.
  unfold grid_threads.
  assert (Hrow : forall b, (fun bt : nat * nat => cuda_grid block_size bt.1 bt.2)
            <$> ((fun t => (b, t)) <$> seq 0 block_size)
          = seq (b * block_size) block_size).
  { intros b. rewrite <- list_fmap_compose. unfold compose, cuda_grid. cbn [fst snd].
    transitivity (Nat.add (b * block_size) <$> seq 0 block_size).
    - apply list_fmap_ext. intros _ t _. lia.
    - rewrite fmap_add_seq. f_equal. lia. }
  induction num_blocks as [|n IH].
  - reflexivity.
  - rewrite seq_S, bind_app, fmap_app, IH. cbn [mbind list_bind Nat.add app].
    rewrite app_nil_r, Hrow. replace (S n * block_size) with (n * block_size + block_size) by lia.
    rewrite seq_app. reflexivity.
Qed.


Lemma grid_threads_NoDup (sched : list (nat * nat)) (num_blocks block_size : nat) :
  sched ≡ₚ grid_threads num_blocks block_size ->
  NoDup ((fun bt => cuda_grid block_size bt.1 bt.2) <$> sched).
Proof.
  intros Hp. rewrite Hp, grid_threads_ids. apply NoDup_seq.
Qed.

Lemma grid_threads_covers (sched : list (nat * nat)) (num_blocks block_size i : nat) :
  sched ≡ₚ grid_threads num_blocks block_size ->
  i < num_blocks * block_size ->
  exists bt, bt ∈ sched /\ cuda_grid block_size bt.1 bt.2 = i.
Proof.
  intros Hp Hi.
  assert (Hin : i ∈ (fun bt : nat * nat => cuda_grid block_size bt.1 bt.2) <$> sched).
  { rewrite Hp, grid_threads_ids. apply elem_of_seq. lia. }
  apply list_elem_of_fmap in Hin as (bt & -> & Hbt). now exists bt.
Qed.

(** ** The naive kernel *)

Lemma gemv_cuda_length alpha A x beta i (y : list Q) :
  length (_gemv_cuda alpha A x beta i y) = length y.
Proof.
  unfold _gemv_cuda. destruct (shape0 A <=? i)%nat; [reflexivity|apply length_insert].
Qed.

Lemma gemv_cuda_other alpha A x beta i (y : list Q) k :
  k <> i -> at1 (_gemv_cuda alpha A x beta i y) k = at1 y k.
Proof.
  intros Hk. unfold _gemv_cuda. destruct (shape0 A <=? i)%nat; [reflexivity|].
  now apply at1_insert_ne.
Qed.

(** C7.  Whatever the grid [num_blocks x block_size] (as long as it covers
    the rows) and whatever the order in which the device runs its threads,
    a launch of the naive kernel on an [N x M] matrix leaves in [y[i]], for
    every row [i < N], the value [alpha * (sum over j < M of A[i,j]*x[j]) +
    beta*y[i]]; a thread whose index is [>= N] returns with the memory as it
    found it.  Nothing is asked of [N] or [M]. *)
Theorem gemv_cuda_naive_correct (alpha beta : Q) (A : ndarray2) (x y : list Q)
    (num_blocks block_size : nat) (sched : list (nat * nat)) :
  length y = shape0 A ->
  shape0 A <= num_blocks * block_size ->
  sched ≡ₚ grid_threads num_blocks block_size ->
  (forall i, i < shape0 A ->
     (at1 (launch_gemv_cuda sched block_size alpha A x beta y) i
      == alpha * row_dot A x i (shape1 A) + beta * at1 y i)%Q)
  /\ (forall i mem, shape0 A <= i -> _gemv_cuda alpha A x beta i mem = mem).
Proof.
  intros Hy Hcover Hsched. split.
  - intros i Hi.
    destruct (grid_threads_covers sched num_blocks block_size i Hsched) as (bt & Hbt & Hid);
      [lia|].
    unfold launch_gemv_cuda. rewrite <- Hid.
    rewrite (fold_step_hit (fun bt : nat * nat => cuda_grid block_size bt.1 bt.2)
               (fun bt y => _gemv_cuda alpha A x beta (cuda_grid block_size bt.1 bt.2) y)
               (fun bt v =>
                  let i := cuda_grid block_size bt.1 bt.2 in
                  if (shape0 A <=? i)%nat then v
                  else (alpha * fold_left (fun prod j => prod + at2 A i j * at1 x j)
                                  (seq 0 (shape1 A)) 0 + beta * v)%Q)).
    + cbn zeta. rewrite Hid.
      destruct (Nat.leb_spec (shape0 A) i) as [Hle|_]; [lia|].
      rewrite (fold_left_big_sum (fun j => at2 A i j * at1 x j)%Q). unfold row_dot. ring.
    + intros t l. apply gemv_cuda_length.
    + intros t l k Hk. now apply gemv_cuda_other.
    + intros t l Hl. unfold _gemv_cuda. cbn zeta.
      destruct (shape0 A <=? cuda_grid block_size t.1 t.2)%nat; [reflexivity|].
      now rewrite at1_insert_eq.
    + now apply grid_threads_NoDup with num_blocks.
    + exact Hbt.
    + lia.
  - intros i mem Hi. unfold _gemv_cuda.
    destruct (Nat.leb_spec (shape0 A) i); [reflexivity|lia].
Qed.

Lemma gemv_cuda_naive_correct_witness :
  let A := mk_ndarray2 2 3 [1; 2; 3; 4; 5; 6]%Q in
  let x := [1; 1; 2]%Q in
  let y := [10; 20]%Q in
  launch_gemv_cuda [(0, 2); (0, 0); (0, 1)] 3 2 A x 1 y = [38; 56]%Q
  /\ (at1 (launch_gemv_cuda [(0, 2); (0, 0); (0, 1)]%nat 3 2 A x 1 y) 1
      == 2 * row_dot A x 1 3 + 1 * at1 y 1)%Q.
Proof.
  intros A x y. split; [reflexivity|].
  apply (gemv_cuda_naive_correct 2 1 A x y 1 3 [(0, 2); (0, 0); (0, 1)]).
  - reflexivity.
  - simpl. lia.
  - apply (bool_decide_unpack _). vm_compute. exact I.
  - simpl. lia.
Defined.

(** ** Folding a step whose effect on one slot comes from one owner *)

Section owned.
Context {T : Type} (owner : T) (k : nat) (step : T -> list Q -> list Q).
Context (g : Q -> Q) (n : nat).
Hypothesis step_length : forall t l, length (step t l) = length l.
Hypothesis step_other : forall t l, t <> owner -> at1 (step t l) k = at1 l k.
Hypothesis step_own :
  forall l, length l = n -> at1 (step owner l) k = g (at1 l k).

Lemma fold_owner_miss (L : list T) (l : list Q) :
  owner ∉ L -> at1 (fold_left (fun l t => step t l) L l) k = at1 l k.
Proof using step_other.
  revert l. induction L as [|a L IH]; intros l Hk; cbn [fold_left]; [reflexivity|].
  apply not_elem_of_cons in Hk as [Hne Hk].
  rewrite IH by exact Hk. apply step_other. congruence.
Qed.

Lemma fold_owner_hit (L : list T) (l : list Q) :
  NoDup L -> owner ∈ L -> length l = n ->
  at1 (fold_left (fun l t => step t l) L l) k = g (at1 l k).
Proof using step_length step_other step_own.
  revert l. induction L as [|a L IH]; intros l Hnd Hin Hlen; cbn [fold_left].
  - now apply elem_of_nil in Hin.
  - apply NoDup_cons in Hnd as [Hnotin Hnd].
    apply elem_of_cons in Hin as [Heq|Hin].
    + subst a. rewrite fold_owner_miss by exact Hnotin. now apply step_own.
    + rewrite IH; [|assumption|assumption|now rewrite step_length].
      rewrite step_other; [reflexivity|]. intros Heq. subst a. contradiction.
Qed.
End owned.

(** ** The tiled kernel on a block all of whose rows exist *)

Lemma BLOCK_SIZE_pos : 0 < BLOCK_SIZE.
Proof. unfold BLOCK_SIZE. lia. Qed.

Lemma filter_all {A : Type} (P : A -> Prop) `{!forall a, Decision (P a)} (l : list A) :
  Forall P l -> filter P l = l.
Proof.
  induction 1 as [|a l Ha _ IH]; [reflexivity|].
  rewrite filter_cons_True by exact Ha. now rewrite IH.
Qed.

Lemma survivors_full (N bs blk : nat) (order : list nat) :
  order ≡ₚ seq 0 bs -> cuda_grid bs blk bs <= N ->
  survivors N bs blk order = order.
Proof.
  intros Hp Hfull. apply filter_all, Forall_forall. intros t Ht.
  rewrite Hp in Ht. apply elem_of_seq in Ht. unfold cuda_grid in *. lia.
Qed.

Lemma order_NoDup (bs : nat) (order : list nat) :
  order ≡ₚ seq 0 bs -> NoDup order.
Proof. intros ->. apply NoDup_seq. Qed.

Lemma order_elem (bs t : nat) (order : list nat) :
  order ≡ₚ seq 0 bs -> t ∈ order <-> t < bs.
Proof. intros ->. rewrite elem_of_seq. lia. Qed.

Lemma load_phase (x : list Q) (bs b : nat) (L : list nat) (lx : list Q) (t : nat) :
  NoDup L -> t ∈ L -> t < length lx ->
  at1 (fold_left (fun lx tid => load_tile x bs b tid lx) L lx) t = at1 x (t + b * bs).
Proof.
  intros Hnd Hin Hlt.
  apply (fold_step_hit (fun t => t) (fun tid lx => load_tile x bs b tid lx)
           (fun t _ => at1 x (t + b * bs))); try assumption.
  - intros. apply length_insert.
  - intros. now apply at1_insert_ne.
  - intros. now apply at1_insert_eq.
  - now rewrite list_fmap_id.
Qed.

Lemma load_phase_length (x : list Q) (bs b : nat) (L : list nat) (lx : list Q) :
  length (fold_left (fun lx tid => load_tile x bs b tid lx) L lx) = length lx.
Proof.
  apply (fold_step_length (fun tid lx => load_tile x bs b tid lx)).
  intros. apply length_insert.
Qed.

Lemma accumulate_phase (A : ndarray2) (bs blk b : nat) (lx : list Q)
    (L : list nat) (ps : list Q) (t : nat) :
  NoDup L -> t ∈ L -> t < length ps ->
  at1 (fold_left
         (fun ps tid =>
            <[ tid := accumulate_tile A bs b (cuda_grid bs blk tid) lx (at1 ps tid) ]> ps)
         L ps) t
  = accumulate_tile A bs b (cuda_grid bs blk t) lx (at1 ps t).
Proof.
  intros Hnd Hin Hlt.
  apply (fold_step_hit (fun t => t)
           (fun tid ps =>
              <[ tid := accumulate_tile A bs b (cuda_grid bs blk tid) lx (at1 ps tid) ]> ps)
           (fun t v => accumulate_tile A bs b (cuda_grid bs blk t) lx v)); try assumption.
  - intros. apply length_insert.
  - intros. now apply at1_insert_ne.
  - intros. now apply at1_insert_eq.
  - now rewrite list_fmap_id.
Qed.

Lemma accumulate_phase_length (A : ndarray2) (bs blk b : nat) (lx : list Q)
    (L : list nat) (ps : list Q) :
  length (fold_left
            (fun ps tid =>
               <[ tid := accumulate_tile A bs b (cuda_grid bs blk tid) lx (at1 ps tid) ]> ps)
            L ps) = length ps.
Proof.
  apply (fold_step_length
           (fun tid ps =>
              <[ tid := accumulate_tile A bs b (cuda_grid bs blk tid) lx (at1 ps tid) ]> ps)).
  intros. apply length_insert.
Qed.

Lemma fold_left_ext_in {A B : Type} (f g : A -> B -> A) (l : list B) (a : A) :
  (forall acc b, b ∈ l -> f acc b = g acc b) -> fold_left f l a = fold_left g l a.
Proof.
  revert a. induction l as [|b l IH]; intros a H; cbn [fold_left]; [reflexivity|].
  rewrite (H a b) by (apply elem_of_cons; now left).
  apply IH. intros acc b' Hb'. apply H. apply elem_of_cons. now right.
Qed.

Lemma fold_left_seq_shift {A : Type} (f : A -> nat -> A) (k lo n : nat) (a : A) :
  fold_left (fun acc j => f acc (j + k)) (seq lo n) a = fold_left f (seq (lo + k) n) a.
Proof.
  revert lo a. induction n as [|n IH]; intros lo a; cbn [seq fold_left]; [reflexivity|].
  apply (IH (S lo)).
Qed.

(** One tile: the register of each thread goes on accumulating over the
    columns of the tile. *)
Lemma tile_iteration_full (A : ndarray2) (x : list Q) (blk : nat)
    (order : nat -> list nat) (b : nat) (st : list Q * list Q) :
  (forall ph, order ph ≡ₚ seq 0 BLOCK_SIZE) ->
  cuda_grid BLOCK_SIZE blk BLOCK_SIZE <= shape0 A ->
  length st.1 = BLOCK_SIZE -> length st.2 = BLOCK_SIZE ->
  let st' := tile_iteration A x BLOCK_SIZE blk order b st in
  length st'.1 = BLOCK_SIZE /\ length st'.2 = BLOCK_SIZE /\
  forall tid, tid < BLOCK_SIZE ->
    at1 st'.2 tid
    = fold_left (fun prod j => prod + at2 A (cuda_grid BLOCK_SIZE blk tid) j * at1 x j)%Q
        (seq (b * BLOCK_SIZE) BLOCK_SIZE) (at1 st.2 tid).
Proof.
  intros Hord Hfull Hlx Hps. unfold tile_iteration. cbn [fst snd].
  rewrite !survivors_full by auto.
  split; [|split].
  - now rewrite load_phase_length.
  - now rewrite accumulate_phase_length.
  - intros tid Htid.
    rewrite accumulate_phase;
      [|now apply order_NoDup with BLOCK_SIZE|now apply (order_elem BLOCK_SIZE)|lia].
    unfold accumulate_tile.
    pose proof (fold_left_seq_shift
                  (fun prod j => prod + at2 A (cuda_grid BLOCK_SIZE blk tid) j * at1 x j)%Q
                  (b * BLOCK_SIZE) 0 BLOCK_SIZE (at1 st.2 tid)) as Hshift.
    cbn [Nat.add] in Hshift. rewrite <- Hshift.
    apply fold_left_ext_in. intros acc j Hj. apply elem_of_seq in Hj.
    rewrite load_phase;
      [reflexivity|now apply order_NoDup with BLOCK_SIZE
      |apply (order_elem BLOCK_SIZE); [auto|lia]|lia].
Qed.

Lemma tile_loop_full (A : ndarray2) (x : list Q) (blk : nat)
    (order : nat -> list nat) (st : list Q * list Q) (tiles : nat) :
  (forall ph, order ph ≡ₚ seq 0 BLOCK_SIZE) ->
  cuda_grid BLOCK_SIZE blk BLOCK_SIZE <= shape0 A ->
  length st.1 = BLOCK_SIZE -> length st.2 = BLOCK_SIZE ->
  let st' := fold_left (fun st b => tile_iteration A x BLOCK_SIZE blk order b st)
               (seq 0 tiles) st in
  length st'.1 = BLOCK_SIZE /\ length st'.2 = BLOCK_SIZE /\
  forall tid, tid < BLOCK_SIZE ->
    at1 st'.2 tid
    = fold_left (fun prod j => prod + at2 A (cuda_grid BLOCK_SIZE blk tid) j * at1 x j)%Q
        (seq 0 (tiles * BLOCK_SIZE)) (at1 st.2 tid).
Proof.
  intros Hord Hfull Hlx Hps. induction tiles as [|k IH].
  - cbn [seq fold_left Nat.mul]. repeat split; assumption.
  - rewrite seq_S, fold_left_app. cbn [fold_left Nat.add].
    destruct IH as (IH1 & IH2 & IH3).
    destruct (tile_iteration_full A x blk order k _ Hord Hfull IH1 IH2) as (H1 & H2 & H3).
    repeat split; try assumption.
    intros tid Htid. rewrite H3, IH3 by exact Htid.
    replace (S k * BLOCK_SIZE) with (k * BLOCK_SIZE + BLOCK_SIZE) by lia.
    rewrite seq_app, fold_left_app. reflexivity.
Qed.

Lemma cuda_grid_inj (bs blk : nat) : Inj (=) (=) (cuda_grid bs blk).
Proof. intros a b H. unfold cuda_grid in H. lia. Qed.

Lemma gemv_cuda_shared_length alpha A x beta bs blk order junk (y : list Q) :
  length (_gemv_cuda_shared alpha A x beta bs blk order junk y) = length y.
Proof.
  unfold _gemv_cuda_shared. cbn zeta.
  set (st := fold_left _ (seq 0 (shape1 A / bs)) _).
  apply (fold_step_length
           (fun tid y => <[ cuda_grid bs blk tid
                            := (alpha * at1 st.2 tid + beta * at1 y (cuda_grid bs blk tid))%Q ]> y)).
  intros. apply length_insert.
Qed.

(** A block writes the rows of its own threads only. *)
Lemma gemv_cuda_shared_other alpha A x beta bs blk order junk (y : list Q) k :
  (forall tid, tid ∈ order (2 * (shape1 A / bs)) -> cuda_grid bs blk tid <> k) ->
  at1 (_gemv_cuda_shared alpha A x beta bs blk order junk y) k = at1 y k.
Proof.
  intros Hk. unfold _gemv_cuda_shared. cbn zeta.
  set (st := fold_left _ (seq 0 (shape1 A / bs)) _).
  apply (fold_step_miss (cuda_grid bs blk)
           (fun tid y => <[ cuda_grid bs blk tid
                            := (alpha * at1 st.2 tid + beta * at1 y (cuda_grid bs blk tid))%Q ]> y)).
  - intros. now apply at1_insert_ne.
  - intros Hin. apply list_elem_of_fmap in Hin as (tid & -> & Ht).
    apply list_elem_of_filter in Ht as [_ Ht]. now apply (Hk tid).
Qed.

(** On a block whose [BLOCK_SIZE] rows all exist, every thread ends with the
    accumulation over the full tiles. *)
Lemma gemv_cuda_shared_full alpha A x beta blk order junk (y : list Q) tid :
  (forall ph, order ph ≡ₚ seq 0 BLOCK_SIZE) ->
  cuda_grid BLOCK_SIZE blk BLOCK_SIZE <= shape0 A ->
  length y = shape0 A ->
  tid < BLOCK_SIZE ->
  at1 (_gemv_cuda_shared alpha A x beta BLOCK_SIZE blk order junk y)
    (cuda_grid BLOCK_SIZE blk tid)
  = tiled_row alpha A x beta y (cuda_grid BLOCK_SIZE blk tid).
Proof.
  intros Hord Hfull Hy Htid. unfold _gemv_cuda_shared. cbn zeta.
  destruct (tile_loop_full A x blk order (shared_array junk, repeat 0%Q BLOCK_SIZE)
              (shape1 A / BLOCK_SIZE) Hord Hfull) as (_ & _ & Hsum).
  { cbn [fst]. unfold shared_array. now rewrite length_fmap, length_seq. }
  { cbn [snd]. apply repeat_length. }
  set (st := fold_left _ (seq 0 (shape1 A / BLOCK_SIZE)) _) in *.
  rewrite survivors_full by auto.
  rewrite (fold_step_hit (cuda_grid BLOCK_SIZE blk)
             (fun tid y => <[ cuda_grid BLOCK_SIZE blk tid
                              := (alpha * at1 st.2 tid
                                  + beta * at1 y (cuda_grid BLOCK_SIZE blk tid))%Q ]> y)
             (fun tid v => (alpha * at1 st.2 tid + beta * v)%Q)).
  - rewrite Hsum by exact Htid. cbn [snd]. unfold tiled_row.
    assert (Hz : at1 (repeat 0%Q BLOCK_SIZE) tid = 0%Q).
    { unfold at1. destruct (repeat 0%Q BLOCK_SIZE !! tid) as [q|] eqn:E; [|reflexivity].
      apply list_elem_of_lookup_2, list_elem_of_In, repeat_spec in E. now subst. }
    now rewrite Hz.
  - intros. apply length_insert.
  - intros. now apply at1_insert_ne.
  - intros. now apply at1_insert_eq.
  - pose proof (cuda_grid_inj BLOCK_SIZE blk) as Hinj.
    apply (NoDup_fmap_2 (cuda_grid BLOCK_SIZE blk)).
    now apply order_NoDup with BLOCK_SIZE.
  - now apply (order_elem BLOCK_SIZE).
  - unfold cuda_grid in *. lia.
Qed.

Lemma tiled_row_sum alpha A x beta (y : list Q) i :
  (tiled_row alpha A x beta y i
   == alpha * row_dot A x i (shape1 A / BLOCK_SIZE * BLOCK_SIZE) + beta * at1 y i)%Q.
Proof.
  unfold tiled_row, row_dot.
  rewrite (fold_left_big_sum (fun j => at2 A i j * at1 x j)%Q). ring.
Qed.

Lemma row_of_block (i : nat) :
  cuda_grid BLOCK_SIZE (i / BLOCK_SIZE) (i mod BLOCK_SIZE) = i.
Proof. unfold cuda_grid. pose proof (Nat.div_mod_eq i BLOCK_SIZE). lia. Qed.

Lemma block_of_row (blk tid : nat) :
  tid < BLOCK_SIZE -> cuda_grid BLOCK_SIZE blk tid / BLOCK_SIZE = blk.
Proof.
  intros Ht. unfold cuda_grid. symmetry.
  apply (Nat.div_unique _ _ _ tid); [exact Ht|lia].
Qed.

(** Rows of blocks that are entirely inside the matrix, after a launch. *)
Lemma launch_shared_full_row_eq alpha beta A x (y : list Q) nb blocks order junk i :
  length y = shape0 A ->
  blocks ≡ₚ seq 0 nb ->
  (forall blk ph, order blk ph ≡ₚ seq 0 BLOCK_SIZE) ->
  i / BLOCK_SIZE < nb ->
  cuda_grid BLOCK_SIZE (i / BLOCK_SIZE) BLOCK_SIZE <= shape0 A ->
  at1 (launch_gemv_cuda_shared blocks order junk BLOCK_SIZE alpha A x beta y) i
  = tiled_row alpha A x beta y i.
Proof.
  intros Hy Hblocks Hord Hlaunched Hfull. unfold launch_gemv_cuda_shared.
  assert (Htid : i mod BLOCK_SIZE < BLOCK_SIZE).
  { apply Nat.mod_upper_bound. pose proof BLOCK_SIZE_pos. lia. }
  rewrite (fold_owner_hit (i / BLOCK_SIZE) i
             (fun blk y =>
                _gemv_cuda_shared alpha A x beta BLOCK_SIZE blk (order blk) (junk blk) y)
             (fun v => (alpha * fold_left (fun prod j => prod + at2 A i j * at1 x j)
                                  (seq 0 (shape1 A / BLOCK_SIZE * BLOCK_SIZE)) 0
                        + beta * v)%Q)
             (shape0 A)).
  - reflexivity.
  - intros. apply gemv_cuda_shared_length.
  - intros blk l Hne. apply gemv_cuda_shared_other. intros tid Ht Heq.
    apply (order_elem BLOCK_SIZE) in Ht; [|apply Hord].
    apply Hne. rewrite <- Heq. symmetry. now apply block_of_row.
  - intros l Hl.
    pose proof (gemv_cuda_shared_full alpha A x beta (i / BLOCK_SIZE)
                  (order (i / BLOCK_SIZE)) (junk (i / BLOCK_SIZE)) l (i mod BLOCK_SIZE)
                  (Hord (i / BLOCK_SIZE)) Hfull Hl Htid) as Hrow.
    rewrite row_of_block in Hrow. exact Hrow.
  - rewrite Hblocks. apply NoDup_seq.
  - rewrite Hblocks. apply elem_of_seq. lia.
  - exact Hy.
Qed.

Lemma launch_shared_full_row alpha beta A x (y : list Q) nb blocks order junk i :
  length y = shape0 A ->
  blocks ≡ₚ seq 0 nb ->
  (forall blk ph, order blk ph ≡ₚ seq 0 BLOCK_SIZE) ->
  i / BLOCK_SIZE < nb ->
  cuda_grid BLOCK_SIZE (i / BLOCK_SIZE) BLOCK_SIZE <= shape0 A ->
  (at1 (launch_gemv_cuda_shared blocks order junk BLOCK_SIZE alpha A x beta y) i
   == alpha * row_dot A x i (shape1 A / BLOCK_SIZE * BLOCK_SIZE) + beta * at1 y i)%Q.
Proof.
  intros. rewrite (launch_shared_full_row_eq alpha beta A x y nb) by assumption.
  apply tiled_row_sum.
Qed.

Lemma grid_blocks_multiple (m : nat) : grid_blocks (m * BLOCK_SIZE) = m.
Proof.
  pose proof BLOCK_SIZE_pos. unfold grid_blocks. cbn zeta.
  rewrite Nat.Div0.mod_mul, Nat.div_mul by lia. reflexivity.
Qed.

Lemma grid_blocks_covers (N : nat) : N <= grid_blocks N * BLOCK_SIZE.
Proof.
  pose proof BLOCK_SIZE_pos. unfold grid_blocks. cbn zeta.
  pose proof (Nat.div_mod_eq N BLOCK_SIZE).
  pose proof (Nat.mod_upper_bound N BLOCK_SIZE).
  destruct (Nat.eqb_spec (N mod BLOCK_SIZE) 0); cbn [negb]; nia.
Qed.

(** C1.  Square [N x N] matrix with [N] a multiple of [BLOCK_SIZE], launched
    as the harness does (blocks of [BLOCK_SIZE] threads, one thread per row):
    whatever the order of the blocks, the order of the threads in each phase
    and the contents found in shared memory, the tiled kernel leaves
    [alpha * (sum over j < N of A[i,j]*x[j]) + beta*y[i]] in every row [i]. *)
Theorem gemv_cuda_shared_correct_on_multiples (alpha beta : Q) (A : ndarray2)
    (x y : list Q) (m : nat) (blocks : list nat) (order : nat -> nat -> list nat)
    (junk : nat -> nat -> Q) (i : nat) :
  shape0 A = m * BLOCK_SIZE ->
  shape1 A = m * BLOCK_SIZE ->
  length y = m * BLOCK_SIZE ->
  blocks ≡ₚ seq 0 (grid_blocks (m * BLOCK_SIZE)) ->
  (forall blk ph, order blk ph ≡ₚ seq 0 BLOCK_SIZE) ->
  i < m * BLOCK_SIZE ->
  (at1 (launch_gemv_cuda_shared blocks order junk BLOCK_SIZE alpha A x beta y) i
   == alpha * row_dot A x i (m * BLOCK_SIZE) + beta * at1 y i)%Q.
Proof.
  intros HN HM Hy Hblocks Hord Hi. pose proof BLOCK_SIZE_pos as Hpos.
  rewrite grid_blocks_multiple in Hblocks.
  assert (Hblk : i / BLOCK_SIZE < m).
  { apply Nat.Div0.div_lt_upper_bound. lia. }
  rewrite (launch_shared_full_row alpha beta A x y m blocks order junk i);
    try assumption; try lia.
  - rewrite HM, Nat.div_mul by lia. reflexivity.
  - rewrite HN. unfold cuda_grid. nia.
Qed.

Lemma gemv_cuda_shared_correct_on_multiples_witness :
  (at1 (launch_gemv_cuda_shared [0]%nat (in_order BLOCK_SIZE) (junk_const 7) BLOCK_SIZE
          (1 # 5) (ones_matrix 128 128) (np_ones 128) 1 (np_ones 128)) 5
   == (1 # 5) * row_dot (ones_matrix 128 128) (np_ones 128) 5 (1 * BLOCK_SIZE)
      + 1 * at1 (np_ones 128) 5)%Q.
Proof.
  apply (gemv_cuda_shared_correct_on_multiples (1 # 5) 1 (ones_matrix 128 128)
           (np_ones 128) (np_ones 128) 1 [0] (in_order BLOCK_SIZE) (junk_const 7) 5).
  - reflexivity.
  - reflexivity.
  - reflexivity.
  - reflexivity.
  - intros blk ph. reflexivity.
  - vm_compute. lia.
Defined.

(** C3, as the code has it.  Whatever the reduction dimension [M], a multiple
    of [BLOCK_SIZE] or not, the tiled kernel goes through [M / BLOCK_SIZE] full
    tiles only: every row [i] of a block whose [BLOCK_SIZE] rows all exist
    ends with [alpha * (sum over j < (M / BLOCK_SIZE) * BLOCK_SIZE of
    A[i,j]*x[j]) + beta*y[i]], the remaining terms being dropped. *)
Theorem gemv_cuda_shared_partial_reduction (alpha beta : Q) (A : ndarray2)
    (x y : list Q) (blocks : list nat) (order : nat -> nat -> list nat)
    (junk : nat -> nat -> Q) (i : nat) :
  length y = shape0 A ->
  blocks ≡ₚ seq 0 (grid_blocks (shape0 A)) ->
  (forall blk ph, order blk ph ≡ₚ seq 0 BLOCK_SIZE) ->
  i < shape0 A ->
  cuda_grid BLOCK_SIZE (i / BLOCK_SIZE) BLOCK_SIZE <= shape0 A ->
  (at1 (launch_gemv_cuda_shared blocks order junk BLOCK_SIZE alpha A x beta y) i
   == alpha * row_dot A x i (shape1 A / BLOCK_SIZE * BLOCK_SIZE) + beta * at1 y i)%Q.
Proof.
  intros Hy Hblocks Hord Hi Hfull.
  apply launch_shared_full_row with (nb := grid_blocks (shape0 A)); try assumption.
  apply Nat.Div0.div_lt_upper_bound.
  pose proof (grid_blocks_covers (shape0 A)). lia.
Qed.

Lemma gemv_cuda_shared_partial_reduction_witness :
  (at1 (launch_gemv_cuda_shared [1; 0]%nat (in_order BLOCK_SIZE) (junk_const 7) BLOCK_SIZE
          (1 # 5) (ones_matrix 130 130) (np_ones 130) 1 (np_ones 130)) 5
   == (1 # 5) * row_dot (ones_matrix 130 130) (np_ones 130) 5
                  (shape1 (ones_matrix 130 130) / BLOCK_SIZE * BLOCK_SIZE)
      + 1 * at1 (np_ones 130) 5)%Q.
Proof.
  apply (gemv_cuda_shared_partial_reduction (1 # 5) 1 (ones_matrix 130 130)
           (np_ones 130) (np_ones 130) [1; 0] (in_order BLOCK_SIZE) (junk_const 7) 5).
  - reflexivity.
  - apply (bool_decide_unpack _). vm_compute. exact I.
  - intros blk ph. reflexivity.
  - vm_compute. lia.
  - vm_compute. lia.
Defined.

(** C3 as stated fails on a row of the last, incomplete block.  With
    [N = M = 130] the second block has two live threads; they load two
    entries of the tile and then read all [BLOCK_SIZE] of them. *)
Lemma gemv_cuda_shared_partial_block_counterexample :
  shape1 (ones_matrix 130 130) mod BLOCK_SIZE <> 0 /\
  129 < shape0 (ones_matrix 130 130) /\
  ~ (at1 (launch_gemv_cuda_shared (seq 0 (grid_blocks 130)) (in_order BLOCK_SIZE)
            (junk_const 0) BLOCK_SIZE 1 (ones_matrix 130 130) (np_ones 130) 1
            (np_ones 130)) 129
     == 1 * row_dot (ones_matrix 130 130) (np_ones 130) 129
              (130 / BLOCK_SIZE * BLOCK_SIZE)
        + 1 * at1 (np_ones 130) 129)%Q.
Proof.
  split; [vm_compute; lia|]. split; [vm_compute; lia|].
  intros H. vm_compute in H. discriminate H.
Qed.

(** ** Timers *)

Lemma chained_regions_total (t0 : Q) (marks : list (Q * Q)) :
  exists total, chained_regions t0 marks = Some total
                /\ (total == t0 + total_duration marks)%Q.
Proof.
  revert t0. induction marks as [|[t_in t_out] marks IH]; intros t0.
  - exists t0. split; [reflexivity|]. unfold total_duration. cbn. ring.
  - cbn [chained_regions timed_region elapsed_time time_region_exit time_region_enter
           time_region_init _t_start _t_end _time_off].
    destruct (IH (t0 + (t_out - t_in))%Q) as (total & Hrun & Htotal).
    exists total. split; [exact Hrun|].
    rewrite Htotal. unfold total_duration. cbn [fmap list_fmap foldr fst snd]. ring.
Qed.

(** C9.  A region constructed with offset [t0], entered at [t_in] and left
    at [t_out], reports [t0 + (t_out - t_in)]; regions run in sequence, each
    given the elapsed time of the previous one as offset, end with [t0] plus
    the sum of their durations. *)
Theorem time_region_offset_composable (t0 t_in t_out : Q) (marks : list (Q * Q)) :
  elapsed_time (timed_region t0 t_in t_out) = Some (t0 + (t_out - t_in))%Q
  /\ exists total, chained_regions t0 marks = Some total
                   /\ (total == t0 + total_duration marks)%Q.
Proof.
  split; [reflexivity|apply chained_regions_total].
Qed.

(** ** The validator *)

Lemma forallb_zip_at1 (P : Q -> Q -> bool) (a b : list Q) :
  length a = length b ->
  forallb (fun p : Q * Q => P p.1 p.2) (zip a b) = true
  <-> forall i, i < length a -> P (at1 a i) (at1 b i) = true.
Proof.
  revert b. induction a as [|p a IH]; intros [|q b] Hlen; try discriminate Hlen.
  - cbn. split; [intros _ i Hi; lia|reflexivity].
  - cbn [zip zip_with forallb fst snd length]. rewrite andb_true_iff, IH by (cbn in Hlen; lia).
    split.
    + intros [H0 HS] [|i] Hi; [exact H0|]. apply (HS i). lia.
    + intros H. split; [apply (H 0); lia|]. intros i Hi. apply (H (S i)). lia.
Qed.

(** C4.  On two vectors of length [N] the validator returns a boolean, and
    that boolean is [true] exactly when every element satisfies
    [|found[i] - expected[i]| <= 1e-8 + 1e-5*|expected[i]|].  It is a function
    of its two arguments alone. *)
Theorem validate_allclose (found expected : list Q) (N : nat) :
  length found = N ->
  length expected = N ->
  exists valid, validate found expected = Some valid
    /\ (valid = true <->
        forall i, i < N ->
          (Qabs (at1 found i - at1 expected i)
           <= 1e-8 + 1e-5 * Qabs (at1 expected i))%Q).
Proof.
  intros Hf He. unfold validate, np_allclose, np_broadcast.
  assert (Hlen : length found = length expected) by lia.
  rewrite (proj2 (Nat.eqb_eq _ _) Hlen).
  eexists. split; [reflexivity|].
  rewrite (forallb_zip_at1 (np_isclose 1e-5 1e-8)) by exact Hlen.
  rewrite Hf. unfold np_isclose.
  split; intros H i Hi; apply Qle_bool_iff, H, Hi.
Qed.

Lemma validate_allclose_witness :
  exists valid, validate [1; 2]%Q [1; 2.00001]%Q = Some valid
    /\ (valid = true <->
        forall i, i < 2 ->
          (Qabs (at1 [1; 2] i - at1 [1; 2.00001] i)
           <= 1e-8 + 1e-5 * Qabs (at1 [1; 2.00001] i))%Q).
Proof.
  apply (validate_allclose [1; 2]%Q [1; 2.00001]%Q 2); reflexivity.
Defined.

(** ** Running computations *)

Lemma bind_returns {A B : Type} (m : IO A) (k : A -> IO B) (w w' : world) (a : A) :
  m w = (Some a, w') -> bind m k w = k a w'.
Proof. intros H. unfold bind. now rewrite H. Qed.

Lemma read_1d (w : world) (r : nat) (v : list Q) :
  host w !! r = Some (Arr1 v) -> bind (host_read r) as_1d w = (Some v, w).
Proof. intros H. unfold bind, host_read. now rewrite H. Qed.

Lemma read_2d (w : world) (r : nat) (a : ndarray2) :
  host w !! r = Some (Arr2 a) -> bind (host_read r) as_2d w = (Some a, w).
Proof. intros H. unfold bind, host_read. now rewrite H. Qed.

Lemma for_each_invariant {A : Type} (P : world -> Prop) (body : A -> IO unit)
    (l : list A) (w : world) :
  (forall a w, P w -> P (body a w).2) -> P w -> P (for_each l body w).2.
Proof.
  intros Hbody. revert w. induction l as [|a l IH]; intros w Hw; [exact Hw|].
  cbn [for_each]. unfold bind. specialize (Hbody a w Hw).
  destruct (body a w) as [[[]|] w1]; cbn [snd] in *; [now apply IH|exact Hbody].
Qed.

Lemma list_eq_at1 (l1 l2 : list Q) :
  length l1 = length l2 ->
  (forall i, i < length l1 -> at1 l1 i = at1 l2 i) -> l1 = l2.
Proof.
  intros Hlen H. apply list_eq. intros i.
  destruct (Nat.lt_ge_cases i (length l1)) as [Hi|Hi].
  - specialize (H i Hi). unfold at1 in H.
    destruct (lookup_lt_is_Some_2 l1 i Hi) as [a Ha].
    destruct (lookup_lt_is_Some_2 l2 i ltac:(lia)) as [b Hb].
    rewrite Ha, Hb in *. cbn in H. now subst.
  - rewrite !lookup_ge_None_2; [reflexivity|lia|lia].
Qed.

(** ** Following the host store *)

Lemma host_same_grows {A : Type} (m : IO A) : host_same m -> host_grows m.
Proof. intros H w. exists []. now rewrite app_nil_r. Qed.

Lemma unchanged_bind {T A B : Type} (field : world -> T) (m : IO A) (k : A -> IO B) :
  unchanged field m -> (forall a, unchanged field (k a)) -> unchanged field (bind m k).
Proof.
  intros Hm Hk w. unfold bind. specialize (Hm w).
  destruct (m w) as [[a|] w1]; cbn [snd] in *; [now rewrite Hk|exact Hm].
Qed.

Lemma fresh_by_bind {A B : Type} (p : B -> nat) (m : IO A) (k : A -> IO B) :
  host_grows m -> (forall a, fresh_by p (k a)) -> fresh_by p (bind m k).
Proof.
  intros Hm Hk w. unfold bind. destruct (Hm w) as [new Hnew].
  destruct (m w) as [[a|] w1]; cbn [fst snd] in *.
  - destruct (Hk a w1) as [[new' Hnew'] Hret]. split.
    + exists (new ++ new'). now rewrite Hnew', Hnew, app_assoc.
    + intros b Hb. specialize (Hret b Hb). rewrite Hnew, length_app in Hret. lia.
  - split; [now exists new|discriminate].
Qed.

Lemma fresh_by_then {A B : Type} (p : A -> nat) (m : IO A) (k : A -> IO B) (q : B -> nat) :
  fresh_by p m -> (forall a, host_grows (k a)) ->
  (forall a w b, (k a w).1 = Some b -> q b = p a) ->
  fresh_by q (bind m k).
Proof.
  intros Hm Hk Hq w. unfold bind. destruct (Hm w) as [[new Hnew] Hret].
  destruct (m w) as [[a|] w1] eqn:E; cbn [fst snd] in *.
  - destruct (Hk a w1) as [new' Hnew']. split.
    + exists (new ++ new'). now rewrite Hnew', Hnew, app_assoc.
    + intros b Hb. rewrite (Hq a w1 b Hb). specialize (Hret a eq_refl).
      rewrite Hnew', length_app. lia.
  - split; [now exists new|discriminate].
Qed.

Lemma host_same_ret {A : Type} (a : A) : host_same (ret a).
Proof. intros w. reflexivity. Qed.

Lemma host_same_raise {A : Type} : host_same (@raise A).
Proof. intros w. reflexivity. Qed.

Lemma host_same_get {A : Type} (o : option A) : host_same (get o).
Proof. destruct o; intros w; reflexivity. Qed.

Lemma host_same_print (l : line) : host_same (print l).
Proof. intros w. reflexivity. Qed.

Lemma host_same_tick : host_same tick.
Proof. intros w. reflexivity. Qed.

Lemma host_same_log_launch (l : launch) : host_same (log_launch l).
Proof. intros w. reflexivity. Qed.

Lemma host_same_host_read (r : nat) : host_same (host_read r).
Proof. intros w. reflexivity. Qed.

Lemma host_same_as_1d (a : ndarray) : host_same (as_1d a).
Proof. destruct a; intros w; reflexivity. Qed.

Lemma host_same_as_2d (a : ndarray) : host_same (as_2d a).
Proof. destruct a; intros w; reflexivity. Qed.

Lemma host_same_device_alloc (a : ndarray) : host_same (device_alloc a).
Proof. intros w. reflexivity. Qed.

Lemma host_same_device_read (r : nat) : host_same (device_read r).
Proof. intros w. reflexivity. Qed.

Lemma host_same_device_write (r : nat) (a : ndarray) : host_same (device_write r a).
Proof. intros w. reflexivity. Qed.

Create HintDb host_same discriminated.

#[local] Hint Resolve host_same_ret host_same_raise host_same_get host_same_print
  host_same_tick host_same_log_launch host_same_host_read host_same_as_1d
  host_same_as_2d host_same_device_alloc host_same_device_read
  host_same_device_write : host_same.

Ltac host_same :=
  repeat first
    [ apply unchanged_bind; [|intros ?]
    | solve [auto with host_same]
    | match goal with |- host_same (match ?a with _ => _ end) => destruct a end
    | match goal with |- host_same (let _ := _ in _) => cbn zeta end ].

Lemma host_same_read_1d (r : nat) : host_same (bind (host_read r) as_1d).
Proof. host_same. Qed.

Lemma host_same_read_2d (r : nat) : host_same (bind (host_read r) as_2d).
Proof. host_same. Qed.

Lemma host_same_cuda_to_device (r : nat) : host_same (cuda_to_device r).
Proof. unfold cuda_to_device. host_same. Qed.

Lemma host_same_cuda_launch rt k num_blocks block_size alpha d_A d_x beta d_y :
  host_same (cuda_launch rt k num_blocks block_size alpha d_A d_x beta d_y).
Proof. unfold cuda_launch. host_same. Qed.

Lemma host_same_with_time_region_cuda {A : Type} rt off (body : IO A) :
  host_same body -> host_same (with_time_region_cuda rt off body).
Proof. intros H. unfold with_time_region_cuda. host_same. Qed.

Lemma fresh_by_host_alloc (a : ndarray) : fresh_by (fun r => r) (host_alloc a).
Proof.
  intros w. cbn. split; [now exists [a]|].
  intros r [= <-]. rewrite length_app. cbn. lia.
Qed.

Lemma host_grows_host_alloc (a : ndarray) : host_grows (host_alloc a).
Proof. intros w. now exists [a]. Qed.

Lemma fresh_by_keeps (f : Q -> nat -> nat -> Q -> nat -> IO nat) :
  (forall alpha A x beta y, fresh_by (fun r => r) (f alpha A x beta y)) ->
  keeps_host_arrays f.
Proof.
  intros H alpha A x beta y w. destruct (H alpha A x beta y w) as [[new Hnew] Hret].
  split; [|exact Hret]. intros r Hr. rewrite Hnew. now apply lookup_app_l.
Qed.

(** ** [gemv_v1] *)

(** While the loop runs, the host store is the one found at the call
    followed by [y_ret]. *)
Lemma gemv_v1_row_frame alpha A x beta y i (h0 : list ndarray) (w : world) :
  (exists l, host w = h0 ++ [Arr1 l]) ->
  exists l, host (gemv_v1_row alpha A x beta y (length h0) i w).2 = h0 ++ [Arr1 l].
Proof.
  intros [l Hl].
  unfold gemv_v1_row, bind, host_read, host_setitem, as_2d, as_1d, ret, raise.
  destruct (host w !! A) as [[v|a]|]; cbn [snd]; eauto.
  destruct (host w !! x) as [[xv|a']|]; cbn [snd]; eauto.
  destruct (host w !! y) as [[yv|a']|]; cbn [snd]; eauto.
  rewrite Hl, list_lookup_middle by reflexivity. cbn [snd host set_host].
  eexists. rewrite insert_app_r_alt, Nat.sub_diag by lia. reflexivity.
Qed.

Lemma gemv_v1_fresh rt alpha A x beta y : fresh_by (fun r => r) (gemv_v1 rt alpha A x beta y).
Proof.
  unfold gemv_v1. apply fresh_by_bind; [apply host_same_grows, host_same_read_2d|].
  intros a w. cbn zeta. unfold bind, host_alloc, ret.
  pose proof (for_each_invariant (fun w' => exists l, host w' = host w ++ [Arr1 l])
                (gemv_v1_row alpha A x beta y (length (host w)))
                (prange_order rt (shape0 a))
                (set_host (host w ++ [Arr1 (np_empty rt (shape0 a))]) w)
                (fun i w' => gemv_v1_row_frame alpha A x beta y i (host w) w')
                (ex_intro _ _ eq_refl)) as [l Hl].
  destruct (for_each _ _ _) as [[[]|] w1]; cbn [fst snd] in *; rewrite Hl.
  - split; [now exists [Arr1 l]|]. intros r [= <-]. rewrite length_app. cbn. lia.
  - split; [now exists [Arr1 l]|discriminate].
Qed.

Lemma gemv_v1_row_returns alpha A x beta y i (h0 : list ndarray) (l : list Q) (w : world)
    (a : ndarray2) (xv yv : list Q) :
  h0 !! A = Some (Arr2 a) -> h0 !! x = Some (Arr1 xv) -> h0 !! y = Some (Arr1 yv) ->
  gemv_v1_row alpha A x beta y (length h0) i (set_host (h0 ++ [Arr1 l]) w)
  = (Some tt, set_host (h0 ++ [Arr1 (<[ i := gemv_row alpha a xv beta yv i ]> l)]) w).
Proof.
  intros HA Hx Hy. unfold gemv_v1_row.
  set (w1 := set_host (h0 ++ [Arr1 l]) w).
  rewrite (bind_returns _ _ _ _ a (read_2d w1 A a (lookup_app_l_Some _ _ _ _ HA))).
  rewrite (bind_returns _ _ _ _ xv (read_1d w1 x xv (lookup_app_l_Some _ _ _ _ Hx))).
  rewrite (bind_returns _ _ _ _ yv (read_1d w1 y yv (lookup_app_l_Some _ _ _ _ Hy))).
  subst w1. cbn zeta. unfold host_setitem. cbn [host set_host].
  rewrite list_lookup_middle by reflexivity.
  rewrite insert_app_r_alt, Nat.sub_diag by lia. reflexivity.
Qed.

Lemma gemv_v1_loop_returns alpha A x beta y (L : list nat) (h0 : list ndarray)
    (l : list Q) (w : world) (a : ndarray2) (xv yv : list Q) :
  h0 !! A = Some (Arr2 a) -> h0 !! x = Some (Arr1 xv) -> h0 !! y = Some (Arr1 yv) ->
  for_each L (gemv_v1_row alpha A x beta y (length h0)) (set_host (h0 ++ [Arr1 l]) w)
  = (Some tt,
     set_host (h0 ++ [Arr1 (fold_left (fun l i => <[ i := gemv_row alpha a xv beta yv i ]> l)
                              L l)]) w).
Proof.
  intros HA Hx Hy. revert l. induction L as [|i L IH]; intros l; [reflexivity|].
  cbn [for_each fold_left].
  rewrite (bind_returns _ _ _ _ tt (gemv_v1_row_returns _ _ _ _ _ _ _ _ _ _ _ _ HA Hx Hy)).
  apply IH.
Qed.

(** Stores at distinct indices, one per index of the vector, whatever their
    order, leave the vector of the stored values. *)
Lemma fold_insert_all (f : nat -> Q) (L : list nat) (l : list Q) :
  L ≡ₚ seq 0 (length l) ->
  fold_left (fun l i => <[ i := f i ]> l) L l = f <$> seq 0 (length l).
Proof.
  intros HL.
  assert (Hlen : length (fold_left (fun l i => <[ i := f i ]> l) L l) = length l).
  { apply (fold_step_length (fun i l => <[ i := f i ]> l)). intros. apply length_insert. }
  apply list_eq_at1.
  - now rewrite Hlen, length_fmap, length_seq.
  - rewrite Hlen. intros i Hi.
    rewrite (fold_step_hit (fun i => i) (fun i l => <[ i := f i ]> l) (fun i _ => f i)).
    + unfold at1. rewrite list_lookup_fmap, lookup_seq_lt by exact Hi. reflexivity.
    + intros. apply length_insert.
    + intros. now apply at1_insert_ne.
    + intros. now apply at1_insert_eq.
    + rewrite list_fmap_id, HL. apply NoDup_seq.
    + rewrite HL. apply elem_of_seq. lia.
    + exact Hi.
Qed.

Lemma gemv_v1_returns rt alpha A x beta y (w : world) (a : ndarray2) (xv yv : list Q) :
  prange_order rt (shape0 a) ≡ₚ seq 0 (shape0 a) ->
  host w !! A = Some (Arr2 a) -> host w !! x = Some (Arr1 xv) ->
  host w !! y = Some (Arr1 yv) ->
  gemv_v1 rt alpha A x beta y w
  = (Some (length (host w)),
     set_host (host w ++ [Arr1 (gemv_row alpha a xv beta yv <$> seq 0 (shape0 a))]) w).
Proof.
  intros Hord HA Hx Hy. unfold gemv_v1.
  rewrite (bind_returns _ _ _ _ a (read_2d _ _ _ HA)). cbn zeta.
  unfold bind at 1, host_alloc at 1.
  rewrite (bind_returns _ _ _ _ tt
             (gemv_v1_loop_returns _ _ _ _ _ _ _ _ _ _ _ _ HA Hx Hy)).
  unfold ret. do 3 f_equal.
  rewrite fold_insert_all; unfold np_empty; rewrite length_fmap, length_seq; auto.
Qed.

(** ** [gemv_v2] *)

Lemma gemv_v2_fresh alpha A x beta y : fresh_by (fun r => r) (gemv_v2 alpha A x beta y).
Proof.
  unfold gemv_v2.
  apply fresh_by_bind; [apply host_same_grows, host_same_read_2d|intros a].
  apply fresh_by_bind; [apply host_same_grows, host_same_read_1d|intros xv].
  apply fresh_by_bind; [apply host_same_grows, host_same_get|intros Ax].
  apply fresh_by_bind; [apply host_grows_host_alloc|intros t1].
  apply fresh_by_bind; [apply host_grows_host_alloc|intros t2].
  apply fresh_by_bind; [apply host_same_grows, host_same_read_1d|intros yv].
  apply fresh_by_bind; [apply host_grows_host_alloc|intros t3].
  apply fresh_by_bind; [apply host_same_grows, host_same_get|intros sum].
  apply fresh_by_host_alloc.
Qed.

(** The vector [alpha*(A @ x) + beta*y]. *)
Lemma gemv_v2_returns alpha A x beta y (w : world) (a : ndarray2) (xv yv : list Q) :
  gemv_operands w A x y a xv yv ->
  exists y_ref,
    gemv_v2 alpha A x beta y w
    = (Some (length (host w) + 3),
       set_host (host w ++ [Arr1 ((fun i => row_dot a xv i (shape1 a)) <$> seq 0 (shape0 a));
                            Arr1 (np_scale alpha
                                    ((fun i => row_dot a xv i (shape1 a)) <$> seq 0 (shape0 a)));
                            Arr1 (np_scale beta yv); Arr1 y_ref]) w)
    /\ length y_ref = shape0 a
    /\ forall i, i < shape0 a ->
         at1 y_ref i = (alpha * row_dot a xv i (shape1 a) + beta * at1 yv i)%Q.
Proof.
  intros (HA & Hx & Hy & Hxv & Hyv). unfold gemv_v2.
  set (Ax := (fun i => row_dot a xv i (shape1 a)) <$> seq 0 (shape0 a)).
  assert (HAx : np_matmul a xv = Some Ax).
  { unfold np_matmul. now rewrite (proj2 (Nat.eqb_eq _ _) Hxv). }
  assert (Hl1 : length (np_scale alpha Ax) = shape0 a).
  { unfold np_scale, Ax. now rewrite !length_fmap, length_seq. }
  assert (Hl2 : length (np_scale beta yv) = shape0 a).
  { unfold np_scale. now rewrite length_fmap. }
  assert (Hsum : np_add (np_scale alpha Ax) (np_scale beta yv)
                 = Some ((fun p : Q * Q => (p.1 + p.2)%Q)
                           <$> zip (np_scale alpha Ax) (np_scale beta yv))).
  { unfold np_add, np_broadcast. rewrite Hl1, Hl2, Nat.eqb_refl. reflexivity. }
  eexists. split; [|split].
  - rewrite (bind_returns _ _ _ _ a (read_2d _ _ _ HA)).
    rewrite (bind_returns _ _ _ _ xv (read_1d _ _ _ Hx)).
    rewrite HAx. cbn [get]. unfold bind at 1, ret at 1.
    unfold bind at 1, host_alloc at 1. unfold bind at 1, host_alloc at 1.
    set (w2 := set_host _ (set_host _ w)).
    assert (Hy2 : host w2 !! y = Some (Arr1 yv)).
    { subst w2. cbn [host set_host]. now rewrite <- !app_assoc, (lookup_app_l_Some _ _ _ _ Hy). }
    rewrite (bind_returns _ _ _ _ yv (read_1d w2 y yv Hy2)).
    unfold bind at 1, host_alloc at 1. rewrite Hsum. cbn [get]. unfold bind, ret, host_alloc.
    subst w2. cbn [host set_host]. rewrite !length_app. cbn [length].
    rewrite <- !app_assoc. cbn [app]. f_equal. f_equal. lia.
  - rewrite length_fmap, length_zip. lia.
  - intros i Hi. unfold at1 at 1.
    rewrite list_lookup_fmap, lookup_zip_with.
    unfold np_scale. rewrite !list_lookup_fmap. subst Ax.
    rewrite list_lookup_fmap, lookup_seq_lt by exact Hi.
    destruct (lookup_lt_is_Some_2 yv i ltac:(lia)) as [q Hq].
    unfold at1. rewrite Hq. reflexivity.
Qed.

(** ** [gemv_v3] *)

Lemma fresh_with_time_region_cuda rt off (body : IO nat) :
  fresh_by (fun r => r) body ->
  fresh_by snd (with_time_region_cuda rt off body).
Proof.
  intros Hbody. unfold with_time_region_cuda.
  apply fresh_by_bind; [apply host_same_grows, host_same_tick|intros k].
  apply (fresh_by_then (fun r => r)); [exact Hbody| |].
  - intros a. apply host_same_grows. host_same.
  - intros a w b. unfold bind, tick, ret. cbn. now intros [= <-].
Qed.

Lemma gemv_v3_fresh rt alpha A x beta y : fresh_by (fun r => r) (gemv_v3 rt alpha A x beta y).
Proof.
  unfold gemv_v3.
  apply fresh_by_bind.
  { apply host_same_grows, host_same_with_time_region_cuda.
    repeat (apply unchanged_bind; [apply host_same_cuda_to_device|intros ?]).
    apply host_same_ret. }
  intros [t_xfer [[d_A d_x] d_y]].
  apply fresh_by_bind; [apply host_same_grows, host_same_read_2d|intros a]. cbn zeta.
  apply fresh_by_bind.
  { apply host_same_grows, host_same_with_time_region_cuda, host_same_cuda_launch. }
  intros [t_kernel []].
  apply fresh_by_bind; [apply host_same_grows, host_same_get|intros xfer].
  apply (fresh_by_then snd).
  - apply fresh_with_time_region_cuda. unfold copy_to_host.
    apply fresh_by_bind; [apply host_same_grows, host_same_device_read|intros d].
    apply fresh_by_host_alloc.
  - intros [t y_ret]. apply host_same_grows. host_same.
  - intros [t y_ret] w b. unfold bind, get, print, ret, raise.
    destruct (elapsed_time_cuda t); cbn; [|discriminate].
    destruct (elapsed_time_cuda t_kernel); cbn; [|discriminate].
    now intros [= <-].
Qed.

(** C8.  None of the gemv variants changes a host array that existed when
    it was called, so [A], [x] and [y] hold their values from before the
    call; whatever a variant returns is an array it allocated during the
    call. *)
Theorem gemv_variants_keep_host_arrays (rt : runtime) :
  keeps_host_arrays (gemv_v1 rt)
  /\ keeps_host_arrays gemv_v2
  /\ keeps_host_arrays (gemv_v3 rt).
Proof.
  split; [|split]; apply fresh_by_keeps; intros.
  - apply gemv_v1_fresh.
  - apply gemv_v2_fresh.
  - apply gemv_v3_fresh.
Qed.

Lemma launch_gemv_cuda_rows alpha A x beta (y : list Q) num_blocks block_size sched :
  length y = shape0 A ->
  shape0 A <= num_blocks * block_size ->
  sched ≡ₚ grid_threads num_blocks block_size ->
  launch_gemv_cuda sched block_size alpha A x beta y
  = gemv_row alpha A x beta y <$> seq 0 (shape0 A).
Proof.
  intros Hy Hcover Hsched.
  assert (Hlen : length (launch_gemv_cuda sched block_size alpha A x beta y) = length y).
  { unfold launch_gemv_cuda.
    apply (fold_step_length
             (fun bt y => _gemv_cuda alpha A x beta (cuda_grid block_size bt.1 bt.2) y)).
    intros. apply gemv_cuda_length. }
  apply list_eq_at1; [now rewrite Hlen, length_fmap, length_seq|].
  rewrite Hlen, Hy. intros i Hi.
  destruct (grid_threads_covers sched num_blocks block_size i Hsched) as (bt & Hbt & Hid);
    [lia|].
  unfold launch_gemv_cuda. rewrite <- Hid.
  rewrite (fold_step_hit (fun bt : nat * nat => cuda_grid block_size bt.1 bt.2)
             (fun bt y => _gemv_cuda alpha A x beta (cuda_grid block_size bt.1 bt.2) y)
             (fun bt v =>
                let i := cuda_grid block_size bt.1 bt.2 in
                if (shape0 A <=? i)%nat then v
                else (alpha * fold_left (fun prod j => prod + at2 A i j * at1 x j)
                                (seq 0 (shape1 A)) 0 + beta * v)%Q)).
  - cbn zeta. rewrite Hid.
    destruct (Nat.leb_spec (shape0 A) i) as [Hle|_]; [lia|].
    unfold at1 at 3. rewrite list_lookup_fmap, lookup_seq_lt by exact Hi. reflexivity.
  - intros t l. apply gemv_cuda_length.
  - intros t l k Hk. now apply gemv_cuda_other.
  - intros t l Hl. unfold _gemv_cuda. cbn zeta.
    destruct (shape0 A <=? cuda_grid block_size t.1 t.2)%nat; [reflexivity|].
    now rewrite at1_insert_eq.
  - now apply grid_threads_NoDup with num_blocks.
  - exact Hbt.
  - lia.
Qed.

Lemma lookup_app_after {A : Type} (l k : list A) (i : nat) :
  (l ++ k) !! (length l + i) = k !! i.
Proof. rewrite lookup_app_r by lia. f_equal. lia. Qed.

Lemma gemv_v3_runs rt alpha A x beta y (w : world) (a : ndarray2) (xv yv : list Q) :
  gemv_operands w A x y a xv yv ->
  let out := launch_gemv_cuda (cuda_order rt (grid_blocks (shape0 a)) BLOCK_SIZE)
               BLOCK_SIZE alpha a xv beta yv in
  exists t_xfer t_kernel,
    gemv_v3 rt alpha A x beta y w
    = (Some (length (host w)),
       mk_world
         (host w ++ [Arr1 out])
         (device w ++ [Arr2 a; Arr1 xv; Arr1 out])
         (launches w ++ [mk_launch K_gemv_cuda (grid_blocks (shape0 a)) BLOCK_SIZE])
         (printed w ++ [Cuda_transfer_times t_xfer; Cuda_kernel_time t_kernel])
         (ticks w + 6) (draws w)).
Proof.
  intros (HA & Hx & Hy & Hxv & Hyv) out.
  set (d := ((device w ++ [Arr2 a]) ++ [Arr1 xv]) ++ [Arr1 yv]).
  assert (H0 : d !! length (device w) = Some (Arr2 a)).
  { subst d. rewrite <- !app_assoc. now apply list_lookup_middle. }
  assert (H1 : d !! length (device w ++ [Arr2 a]) = Some (Arr1 xv)).
  { subst d. rewrite <- (app_assoc _ [Arr1 xv]). now apply list_lookup_middle. }
  assert (H2 : d !! length ((device w ++ [Arr2 a]) ++ [Arr1 xv]) = Some (Arr1 yv)).
  { subst d. now apply list_lookup_middle. }
  assert (H3 : forall v, <[length ((device w ++ [Arr2 a]) ++ [Arr1 xv]) := v]> d
                         = device w ++ [Arr2 a; Arr1 xv; v]).
  { intros v. subst d. rewrite insert_app_r_alt, Nat.sub_diag by lia.
    cbn. now rewrite <- !app_assoc. }
  assert (H4 : forall v, (device w ++ [Arr2 a; Arr1 xv; v])
                         !! length ((device w ++ [Arr2 a]) ++ [Arr1 xv]) = Some v).
  { intros v. rewrite <- app_assoc, length_app. cbn [app length].
    now rewrite lookup_app_after. }
  eexists. eexists.
  unfold gemv_v3, with_time_region_cuda, cuda_to_device, copy_to_host, cuda_launch,
    elapsed_time_cuda, bind, get, ret, raise, tick, print, log_launch, host_read, host_alloc,
    device_read, device_alloc, device_write.
  repeat (cbn [host device set_host set_device launches printed ticks draws fst snd
               cuda_t_start cuda_t_end cuda_time_off as_2d as_1d ret raise];
          fold d;
          first [rewrite HA | rewrite Hx | rewrite Hy | rewrite H0 | rewrite H1
                | rewrite H2 | rewrite H3 | rewrite H4]).
  cbn [host device set_host set_device launches printed ticks draws fst snd
       cuda_t_start cuda_t_end cuda_time_off as_2d as_1d ret raise].
  rewrite <- app_assoc. cbn [app]. subst out.
  f_equal. f_equal. lia.
Qed.

Lemma gemv_v3_returns rt alpha A x beta y (w : world) (a : ndarray2) (xv yv : list Q) :
  cuda_order rt (grid_blocks (shape0 a)) BLOCK_SIZE
    ≡ₚ grid_threads (grid_blocks (shape0 a)) BLOCK_SIZE ->
  gemv_operands w A x y a xv yv ->
  exists t_xfer t_kernel,
    gemv_v3 rt alpha A x beta y w
    = (Some (length (host w)),
       mk_world
         (host w ++ [Arr1 (gemv_row alpha a xv beta yv <$> seq 0 (shape0 a))])
         (device w ++ [Arr2 a; Arr1 xv;
                       Arr1 (gemv_row alpha a xv beta yv <$> seq 0 (shape0 a))])
         (launches w ++ [mk_launch K_gemv_cuda (grid_blocks (shape0 a)) BLOCK_SIZE])
         (printed w ++ [Cuda_transfer_times t_xfer; Cuda_kernel_time t_kernel])
         (ticks w + 6) (draws w)).
Proof.
  intros Hsched Hops.
  destruct (gemv_v3_runs rt alpha A x beta y w a xv yv Hops) as (t1 & t2 & Hrun).
  destruct Hops as (_ & _ & _ & _ & Hyv).
  rewrite (launch_gemv_cuda_rows alpha a xv beta yv (grid_blocks (shape0 a)) BLOCK_SIZE
             _ Hyv (grid_blocks_covers (shape0 a)) Hsched) in Hrun.
  now exists t1, t2.
Qed.

(** ** The dispatch *)

Lemma dispatch_cases (version : string) (f : pyobj) :
  lookup_global module_globals ("gemv_" +:+ version) = Some f ->
  (version = "v1" /\ f = Py_gemv gemv_v1)
  \/ (version = "v2" /\ f = Py_gemv (fun _ => gemv_v2))
  \/ (version = "v3" /\ f = Py_gemv gemv_v3).
Proof.
  unfold module_globals. cbn [lookup_global].
  change ("gemv_" +:+ version)
    with (String "g" (String "e" (String "m" (String "v" (String "_" version))))).
  repeat match goal with
         | |- context [String.eqb ?k ?s] =>
             destruct (String.eqb_spec k s) as [E|_];
             [try discriminate E; injection E as <-; intros [= <-]; auto|]
         end.
  discriminate.
Qed.

(** ** Kernel launches *)

Ltac unchanged :=
  repeat first
    [ apply unchanged_bind; [|intros ?]
    | assumption
    | solve [intros ?; reflexivity]
    | match goal with |- unchanged _ (get ?o) => destruct o end
    | match goal with |- unchanged _ (as_1d ?a) => destruct a end
    | match goal with |- unchanged _ (as_2d ?a) => destruct a end
    | match goal with |- unchanged _ (let _ := _ in _) => cbn zeta end ].

Lemma unchanged_for_each {T A : Type} (field : world -> T) (l : list A)
    (body : A -> IO unit) :
  (forall a, unchanged field (body a)) -> unchanged field (for_each l body).
Proof.
  intros Hbody. induction l as [|a l IH]; cbn [for_each]; unchanged. apply Hbody.
Qed.

Lemma host_setitem_launches (r i : nat) (v : Q) : unchanged launches (host_setitem r i v).
Proof.
  intros w. unfold host_setitem. destruct (host w !! r) as [[l|a]|]; reflexivity.
Qed.

Lemma gemv_v1_launches rt alpha A x beta y :
  unchanged launches (gemv_v1 rt alpha A x beta y).
Proof.
  unfold gemv_v1. unchanged. apply unchanged_for_each. intros i.
  unfold gemv_v1_row. unchanged. apply host_setitem_launches.
Qed.

Lemma gemv_v2_launches alpha A x beta y : unchanged launches (gemv_v2 alpha A x beta y).
Proof. unfold gemv_v2. unchanged. Qed.

Lemma naive_of_unchanged {A : Type} (m : IO A) : unchanged launches m -> naive_launches m.
Proof. intros H w. exists []. rewrite app_nil_r. split; [apply H|constructor]. Qed.

Lemma naive_bind {A B : Type} (m : IO A) (k : A -> IO B) :
  naive_launches m -> (forall a, naive_launches (k a)) -> naive_launches (bind m k).
Proof.
  intros Hm Hk w. unfold bind. destruct (Hm w) as (new & Hnew & Hall).
  destruct (m w) as [[a|] w1]; cbn [snd] in *; [|now exists new].
  destruct (Hk a w1) as (new' & Hnew' & Hall'). exists (new ++ new'). split.
  - now rewrite Hnew', Hnew, app_assoc.
  - now apply Forall_app.
Qed.

Lemma naive_cuda_launch rt num_blocks block_size alpha d_A d_x beta d_y :
  naive_launches (cuda_launch rt K_gemv_cuda num_blocks block_size alpha d_A d_x beta d_y).
Proof.
  unfold cuda_launch.
  repeat (apply naive_bind; [apply naive_of_unchanged; unchanged|intros ?]).
  intros w. eexists [_]. split; [reflexivity|]. now constructor.
Qed.

Lemma naive_with_time_region_cuda {A : Type} rt off (body : IO A) :
  naive_launches body -> naive_launches (with_time_region_cuda rt off body).
Proof.
  intros H. unfold with_time_region_cuda.
  apply naive_bind; [apply naive_of_unchanged; unchanged|intros k].
  apply naive_bind; [exact H|intros a].
  apply naive_of_unchanged. unchanged.
Qed.

Lemma gemv_v3_launches rt alpha A x beta y : naive_launches (gemv_v3 rt alpha A x beta y).
Proof.
  unfold gemv_v3.
  apply naive_bind.
  { apply naive_with_time_region_cuda, naive_of_unchanged. unfold cuda_to_device. unchanged. }
  intros [t_xfer [[d_A d_x] d_y]].
  apply naive_bind; [apply naive_of_unchanged; unchanged|intros a]. cbn zeta.
  apply naive_bind; [apply naive_with_time_region_cuda, naive_cuda_launch|].
  intros [t_kernel []].
  apply naive_bind; [apply naive_of_unchanged; unchanged|intros xfer].
  apply naive_bind.
  { apply naive_with_time_region_cuda, naive_of_unchanged. unfold copy_to_host. unchanged. }
  intros [t y_ret]. apply naive_of_unchanged. unchanged.
Qed.

Lemma dispatched_launches (version : string) (f : pyobj) rt alpha A x beta y :
  lookup_global module_globals ("gemv_" +:+ version) = Some f ->
  naive_launches (call f rt alpha A x beta y).
Proof.
  intros Hf. destruct (dispatch_cases version f Hf) as [[_ ->]|[[_ ->]|[_ ->]]]; cbn [call].
  - apply naive_of_unchanged, gemv_v1_launches.
  - apply naive_of_unchanged, gemv_v2_launches.
  - apply gemv_v3_launches.
Qed.

(** C2 as stated fails: no version tag reaches the tiled kernel.  Whatever
    the tag the dispatch accepts and whatever the call, none of the kernels
    launched by the selected function is [_gemv_cuda_shared]. *)
Lemma tiled_kernel_never_dispatched :
  ~ exists (version : string) (f : pyobj) rt alpha A x beta y w l,
      lookup_global module_globals ("gemv_" +:+ version) = Some f
      /\ l ∈ drop (length (launches w)) (launches (call f rt alpha A x beta y w).2)
      /\ launched l = K_gemv_cuda_shared.
Proof.
  intros (version & f & rt & alpha & A & x & beta & y & w & l & Hf & Hl & Hshared).
  destruct (dispatched_launches version f rt alpha A x beta y Hf w) as (new & Hnew & Hall).
  rewrite Hnew, drop_app_length in Hl.
  rewrite Forall_forall in Hall. specialize (Hall l Hl). congruence.
Qed.

(** C2, as the code has it.  A version tag accepted by the dispatch selects
    [gemv_v1], [gemv_v2] or [gemv_v3]; every device kernel launched by the
    selected function is the naive kernel [_gemv_cuda]; and [gemv_v3], on a
    matrix and two vectors of matching shapes, launches exactly that kernel
    once, on [grid_blocks N] blocks of [BLOCK_SIZE] threads. *)
Theorem dispatch_launches_naive_kernel (version : string) (f : pyobj) rt alpha A x beta y w :
  lookup_global module_globals ("gemv_" +:+ version) = Some f ->
  ((version = "v1" /\ f = Py_gemv gemv_v1)
   \/ (version = "v2" /\ f = Py_gemv (fun _ => gemv_v2))
   \/ (version = "v3" /\ f = Py_gemv gemv_v3))
  /\ launches_only_naive w (call f rt alpha A x beta y w).2
  /\ forall a xv yv,
       gemv_operands w A x y a xv yv ->
       launches (gemv_v3 rt alpha A x beta y w).2
       = launches w ++ [mk_launch K_gemv_cuda (grid_blocks (shape0 a)) BLOCK_SIZE].
Proof.
  intros Hf. split; [now apply dispatch_cases|]. split.
  - now apply (dispatched_launches version).
  - intros a xv yv Hops.
    destruct (gemv_v3_runs rt alpha A x beta y w a xv yv Hops) as (t1 & t2 & Hrun).
    now rewrite Hrun.
Qed.

Lemma dispatch_launches_naive_kernel_witness :
  launches (call (Py_gemv gemv_v3) sample_runtime 2 0 1 1 2 sample_world).2
  = [mk_launch K_gemv_cuda 1 128]
  /\ launches_only_naive sample_world
       (call (Py_gemv gemv_v3) sample_runtime 2 0 1 1 2 sample_world).2.
Proof.
  split; [reflexivity|].
  apply (dispatch_launches_naive_kernel "v3" (Py_gemv gemv_v3) sample_runtime 2 0 1 1 2
           sample_world).
  reflexivity.
Defined.

(** ** The launch configuration *)

Lemma grid_blocks_ceiling (N : nat) :
  grid_blocks N = (N + BLOCK_SIZE - 1) / BLOCK_SIZE.
Proof.
  pose proof BLOCK_SIZE_pos as Hpos. unfold grid_blocks. cbn zeta.
  pose proof (Nat.div_mod_eq N BLOCK_SIZE) as Hdm.
  pose proof (Nat.mod_upper_bound N BLOCK_SIZE ltac:(lia)) as Hr.
  destruct (Nat.eqb_spec (N mod BLOCK_SIZE) 0) as [Hz|Hnz]; cbn [negb].
  - apply (Nat.div_unique _ _ _ (BLOCK_SIZE - 1)); lia.
  - apply (Nat.div_unique _ _ _ (N mod BLOCK_SIZE - 1)); lia.
Qed.

(** C6.  On a matrix with [N > 0] rows, [gemv_v3] launches its kernel on
    [N // BLOCK_SIZE] blocks, plus one when [N % BLOCK_SIZE] is not zero: that
    is [ceil(N / BLOCK_SIZE)], the least number of blocks of [BLOCK_SIZE]
    threads covering [N] rows; it is at least [1], and every row [i < N] is
    the [cuda.grid(1)] of a thread of the grid. *)
Theorem gemv_v3_grid_is_ceiling rt alpha A x beta y (w : world) (a : ndarray2)
    (xv yv : list Q) :
  gemv_operands w A x y a xv yv ->
  0 < shape0 a ->
  launches (gemv_v3 rt alpha A x beta y w).2
  = launches w ++ [mk_launch K_gemv_cuda (grid_blocks (shape0 a)) BLOCK_SIZE]
  /\ grid_blocks (shape0 a) = (shape0 a + BLOCK_SIZE - 1) / BLOCK_SIZE
  /\ 1 <= grid_blocks (shape0 a)
  /\ (grid_blocks (shape0 a) - 1) * BLOCK_SIZE < shape0 a <= grid_blocks (shape0 a) * BLOCK_SIZE
  /\ forall i, i < shape0 a ->
       exists bt, bt ∈ grid_threads (grid_blocks (shape0 a)) BLOCK_SIZE
                  /\ cuda_grid BLOCK_SIZE bt.1 bt.2 = i.
Proof.
  intros Hops HN. pose proof BLOCK_SIZE_pos as Hpos.
  pose proof (grid_blocks_covers (shape0 a)) as Hcov.
  assert (Hlow : (grid_blocks (shape0 a) - 1) * BLOCK_SIZE < shape0 a).
  { unfold grid_blocks. cbn zeta.
    pose proof (Nat.div_mod_eq (shape0 a) BLOCK_SIZE) as Hdm.
    pose proof (Nat.mod_upper_bound (shape0 a) BLOCK_SIZE ltac:(lia)) as Hr.
    destruct (Nat.eqb_spec (shape0 a mod BLOCK_SIZE) 0) as [Hz|Hnz]; cbn [negb]; nia. }
  split; [|split; [|split; [|split]]].
  - destruct (gemv_v3_runs rt alpha A x beta y w a xv yv Hops) as (t1 & t2 & Hrun).
    now rewrite Hrun.
  - apply grid_blocks_ceiling.
  - destruct (grid_blocks (shape0 a)); [cbn in Hcov; lia|lia].
  - split; [exact Hlow|exact Hcov].
  - intros i Hi.
    apply (grid_threads_covers _ (grid_blocks (shape0 a)) BLOCK_SIZE i); [reflexivity|lia].
Qed.

Lemma gemv_v3_grid_is_ceiling_witness :
  launches (gemv_v3 sample_runtime 2 0 1 1 2 sample_world).2 = [mk_launch K_gemv_cuda 1 128]
  /\ 1 <= grid_blocks 2.
Proof.
  split; [reflexivity|].
  apply (gemv_v3_grid_is_ceiling sample_runtime 2 0 1 1 2 sample_world
           (mk_ndarray2 2 2 [1; 2; 3; 4]%Q) [1; 1]%Q [10; 20]%Q).
  - repeat split; reflexivity.
  - cbn. lia.
Defined.

(** ** Determinism *)

Lemma launch_shared_length alpha beta A x (y : list Q) blocks order junk bs :
  length (launch_gemv_cuda_shared blocks order junk bs alpha A x beta y) = length y.
Proof.
  unfold launch_gemv_cuda_shared.
  apply (fold_step_length
           (fun blk y => _gemv_cuda_shared alpha A x beta bs blk (order blk) (junk blk) y)).
  intros. apply gemv_cuda_shared_length.
Qed.

(** With every block complete, the launch of the tiled kernel leaves the
    same vector whatever the schedule and the contents of shared memory. *)
Lemma launch_shared_all_full alpha beta A x (y : list Q) blocks order junk :
  shape0 A mod BLOCK_SIZE = 0 ->
  length y = shape0 A ->
  blocks ≡ₚ seq 0 (grid_blocks (shape0 A)) ->
  (forall blk ph, order blk ph ≡ₚ seq 0 BLOCK_SIZE) ->
  launch_gemv_cuda_shared blocks order junk BLOCK_SIZE alpha A x beta y
  = tiled_row alpha A x beta y <$> seq 0 (shape0 A).
Proof.
  intros Hmod Hy Hblocks Hord. pose proof BLOCK_SIZE_pos as Hpos.
  pose proof (Nat.div_mod_eq (shape0 A) BLOCK_SIZE) as Hdm.
  assert (Hnb : grid_blocks (shape0 A) = shape0 A / BLOCK_SIZE).
  { unfold grid_blocks. cbn zeta. now rewrite Hmod. }
  apply list_eq_at1.
  - now rewrite launch_shared_length, length_fmap, length_seq.
  - rewrite launch_shared_length, Hy. intros i Hi.
    assert (Hblk : i / BLOCK_SIZE < shape0 A / BLOCK_SIZE).
    { apply Nat.Div0.div_lt_upper_bound. lia. }
    rewrite (launch_shared_full_row_eq alpha beta A x y (grid_blocks (shape0 A)));
      try assumption; try lia.
    + unfold at1. rewrite list_lookup_fmap, lookup_seq_lt by exact Hi. reflexivity.
    + unfold cuda_grid. nia.
Qed.

Lemma fair_sample_runtime : fair sample_runtime.
Proof.
  repeat split; intros; cbn; symmetry; apply Permutation_rev.
Qed.

Lemma fair_plain_runtime : fair plain_runtime.
Proof. repeat split; intros; reflexivity. Qed.

Lemma same_result_intro (call1 call2 : IO nat) (w1 w2 w1' w2' : world)
    (r1 r2 : nat) (out : list Q) :
  call1 w1 = (Some r1, w1') -> call2 w2 = (Some r2, w2') ->
  host w1' !! r1 = Some (Arr1 out) -> host w2' !! r2 = Some (Arr1 out) ->
  same_result call1 call2 w1 w2.
Proof.
  intros H1 H2 Hr1 Hr2. exists r1, r2, out. rewrite H1, H2. now repeat split.
Qed.

(** C10 as stated fails for the tiled kernel: with [N = M = 130] the last
    block is incomplete, and two launches on the same [A], [x], [y],
    [alpha], [beta] and the same schedule differ as soon as shared memory
    holds different values when they start. *)
Lemma tiled_kernel_not_deterministic :
  launch_gemv_cuda_shared (seq 0 (grid_blocks 130)) (in_order BLOCK_SIZE) (junk_const 0)
    BLOCK_SIZE 1 (ones_matrix 130 130) (np_ones 130) 1 (np_ones 130)
  <> launch_gemv_cuda_shared (seq 0 (grid_blocks 130)) (in_order BLOCK_SIZE) (junk_const 7)
       BLOCK_SIZE 1 (ones_matrix 130 130) (np_ones 130) 1 (np_ones 130).
Proof.
  intros H. apply (f_equal (fun out => at1 out 129)) in H.
  vm_compute in H. discriminate H.
Qed.

(** C10, as the code has it.  Two calls of the same variant [gemv_v1],
    [gemv_v2] or [gemv_v3] on a matrix and two vectors with the same contents
    and with the same [alpha] and [beta] return vectors with the same
    contents, whatever the two run-times (clock, scheduling, contents of
    fresh memory) and the two stores.  So do two launches of the tiled kernel
    when [N] is a multiple of [BLOCK_SIZE], that is when every block is
    complete. *)
Theorem gemv_variants_deterministic (rt1 rt2 : runtime) (alpha beta : Q)
    (a : ndarray2) (xv yv : list Q) (w1 w2 : world) (A1 x1 y1 A2 x2 y2 : nat) :
  fair rt1 -> fair rt2 ->
  gemv_operands w1 A1 x1 y1 a xv yv ->
  gemv_operands w2 A2 x2 y2 a xv yv ->
  same_result (gemv_v1 rt1 alpha A1 x1 beta y1) (gemv_v1 rt2 alpha A2 x2 beta y2) w1 w2
  /\ same_result (gemv_v2 alpha A1 x1 beta y1) (gemv_v2 alpha A2 x2 beta y2) w1 w2
  /\ same_result (gemv_v3 rt1 alpha A1 x1 beta y1) (gemv_v3 rt2 alpha A2 x2 beta y2) w1 w2
  /\ (shape0 a mod BLOCK_SIZE = 0 ->
      launch_gemv_cuda_shared (cuda_blocks rt1 (grid_blocks (shape0 a)))
        (cuda_phase_order rt1) (cuda_shared_junk rt1) BLOCK_SIZE alpha a xv beta yv
      = launch_gemv_cuda_shared (cuda_blocks rt2 (grid_blocks (shape0 a)))
          (cuda_phase_order rt2) (cuda_shared_junk rt2) BLOCK_SIZE alpha a xv beta yv).
Proof.
  intros (Hp1 & Hc1 & Hb1 & Ho1) (Hp2 & Hc2 & Hb2 & Ho2) Hops1 Hops2.
  split; [|split; [|split]].
  - destruct Hops1 as (HA1 & Hx1 & Hy1 & _), Hops2 as (HA2 & Hx2 & Hy2 & _).
    eapply same_result_intro.
    + apply (gemv_v1_returns rt1 alpha A1 x1 beta y1 w1 a xv yv); auto.
    + apply (gemv_v1_returns rt2 alpha A2 x2 beta y2 w2 a xv yv); auto.
    + cbn [host set_host]. now apply list_lookup_middle.
    + cbn [host set_host]. now apply list_lookup_middle.
  - destruct (gemv_v2_returns alpha A1 x1 beta y1 w1 a xv yv Hops1) as (o1 & Hr1 & Hl1 & Hv1).
    destruct (gemv_v2_returns alpha A2 x2 beta y2 w2 a xv yv Hops2) as (o2 & Hr2 & Hl2 & Hv2).
    assert (Ho : o1 = o2).
    { apply list_eq_at1; [lia|]. rewrite Hl1. intros i Hi. now rewrite Hv1, Hv2. }
    subst o2. eapply same_result_intro; [exact Hr1|exact Hr2| |].
    + cbn [host set_host]. now rewrite lookup_app_after.
    + cbn [host set_host]. now rewrite lookup_app_after.
  - destruct (gemv_v3_returns rt1 alpha A1 x1 beta y1 w1 a xv yv (Hc1 _ _) Hops1)
      as (t1 & t2 & Hr1).
    destruct (gemv_v3_returns rt2 alpha A2 x2 beta y2 w2 a xv yv (Hc2 _ _) Hops2)
      as (t3 & t4 & Hr2).
    eapply same_result_intro; [exact Hr1|exact Hr2| |].
    + cbn [host]. now apply list_lookup_middle.
    + cbn [host]. now apply list_lookup_middle.
  - intros Hmod. destruct Hops1 as (_ & _ & _ & _ & Hyv).
    rewrite !(launch_shared_all_full alpha beta a xv yv) by auto. reflexivity.
Qed.

Lemma gemv_variants_deterministic_witness :
  same_result (gemv_v1 sample_runtime 2 0 1 1 2) (gemv_v1 plain_runtime 2 0 1 1 2)
    sample_world sample_world
  /\ same_result (gemv_v3 sample_runtime 2 0 1 1 2) (gemv_v3 plain_runtime 2 0 1 1 2)
       sample_world sample_world.
Proof.
  destruct (gemv_variants_deterministic sample_runtime plain_runtime 2 1
              (mk_ndarray2 2 2 [1; 2; 3; 4]%Q) [1; 1]%Q [10; 20]%Q
              sample_world sample_world 0 1 2 0 1 2
              fair_sample_runtime fair_plain_runtime
              ltac:(repeat split; reflexivity) ltac:(repeat split; reflexivity))
    as (H1 & _ & H3 & _).
  split; [exact H1|exact H3].
Defined.

(** ** The dimension argument *)

Lemma lstrip_split (s : list ascii) :
  exists sp, s = sp ++ lstrip s /\ Forall (fun c => is_space c = true) sp.
Proof.
  induction s as [|c s (sp & Hs & Hsp)]; [exists []; split; [reflexivity|constructor]|].
  cbn [lstrip]. destruct (is_space c) eqn:Hc.
  - exists (c :: sp). split; [cbn; now rewrite <- Hs|now constructor].
  - exists []. split; [reflexivity|constructor].
Qed.

Lemma strip_split (s : list ascii) :
  exists sp1 sp2,
    s = sp1 ++ strip s ++ sp2
    /\ Forall (fun c => is_space c = true) sp1 /\ Forall (fun c => is_space c = true) sp2.
Proof.
  destruct (lstrip_split s) as (sp1 & Hs & Hsp1).
  destruct (lstrip_split (rev (lstrip s))) as (sp2 & Hr & Hsp2).
  exists sp1, (rev sp2). split; [|split; [exact Hsp1|]].
  - unfold strip. rewrite <- rev_app_distr, <- Hr, rev_involutive. exact Hs.
  - apply Forall_forall. intros c Hc. apply list_elem_of_In, in_rev in Hc.
    rewrite Forall_forall in Hsp2. apply Hsp2. now apply list_elem_of_In.
Qed.

Lemma parse_digits_chars (s : list ascii) (acc : Z) (after_digit : bool) (n : Z) :
  parse_digits acc after_digit s = Some n ->
  Forall (fun c => c = "_"%char \/ is_Some (digit_value c)) s.
Proof.
  revert acc after_digit. induction s as [|c s IH]; intros acc after_digit H; [constructor|].
  cbn [parse_digits] in H. destruct (Ascii.eqb_spec c "_") as [->|Hc].
  - destruct after_digit; [|discriminate]. constructor; [now left|]. now apply IH in H.
  - destruct (digit_value c) as [d|] eqn:Hd; [|discriminate].
    constructor; [right; eauto|]. now apply IH in H.
Qed.

(** Whatever [int] reads as an integer is made of blanks, a sign, digits and
    underscores: characters of ASCII. *)
Lemma py_int_ascii (s : string) (N : Z) : py_int s = Some N -> is_ascii s = true.
Proof.
  unfold py_int, is_ascii. cbn zeta.
  destruct (max_str_digits <? _)%nat; [discriminate|].
  destruct (strip_split (list_ascii_of_string s)) as (sp1 & sp2 & Hs & Hsp1 & Hsp2).
  intros H. rewrite Hs, !forallb_app.
  assert (Hsp : forall sp, Forall (fun c => is_space c = true) sp ->
            forallb (fun c => (nat_of_ascii c <? 128)%nat) sp = true).
  { intros sp Hall. apply forallb_forall. intros c Hc.
    rewrite Forall_forall in Hall. apply list_elem_of_In, Hall in Hc.
    unfold is_space in Hc. cbn zeta in Hc. apply Nat.ltb_lt.
    apply orb_true_iff in Hc as [Hc|Hc].
    - apply andb_true_iff in Hc as [_ Hc]. apply Nat.leb_le in Hc. lia.
    - apply Nat.eqb_eq in Hc. lia. }
  assert (Hdig : forall l acc b n, parse_digits acc b l = Some n ->
            forallb (fun c => (nat_of_ascii c <? 128)%nat) l = true).
  { intros l acc b n Hp. apply parse_digits_chars in Hp.
    apply forallb_forall. intros c Hc. rewrite Forall_forall in Hp.
    apply list_elem_of_In, Hp in Hc. destruct Hc as [->|[d Hd]]; [reflexivity|].
    unfold digit_value in Hd. cbn zeta in Hd. apply Nat.ltb_lt.
    destruct (48 <=? nat_of_ascii c)%nat; [|discriminate].
    destruct (Nat.leb_spec (nat_of_ascii c) 57); [lia|discriminate]. }
  rewrite (Hsp sp1 Hsp1), (Hsp sp2 Hsp2), andb_true_r. cbn [andb].
  destruct (strip (list_ascii_of_string s)) as [|c body]; [discriminate|].
  destruct (Ascii.eqb_spec c "-") as [->|Hminus].
  { cbn [forallb]. destruct (parse_digits 0 false body) as [n|] eqn:Hp; [|discriminate].
    now rewrite (Hdig body _ _ _ Hp). }
  destruct (Ascii.eqb_spec c "+") as [->|Hplus].
  { cbn [forallb]. now rewrite (Hdig body _ _ _ H). }
  exact (Hdig (c :: body) _ _ _ H).
Qed.

(** [int] on dimension arguments: what it accepts and what it rejects. *)
Lemma py_int_accepts :
  py_int "128" = Some 128%Z
  /\ py_int " 128" = Some 128%Z
  /\ py_int (String (ascii_of_nat 9) ("128" +:+ String (ascii_of_nat 10) "")) = Some 128%Z
  /\ py_int "+128" = Some 128%Z
  /\ py_int "-128" = Some (-128)%Z
  /\ py_int "0128" = Some 128%Z
  /\ py_int "1_024" = Some 1024%Z.
Proof. repeat split; vm_compute; reflexivity. Qed.

Lemma py_int_rejects :
  py_int "" = None
  /\ py_int "abc" = None
  /\ py_int "12.5" = None
  /\ py_int "- 7" = None
  /\ py_int "+-7" = None
  /\ py_int "7 8" = None
  /\ py_int "_7" = None
  /\ py_int "7_" = None
  /\ py_int "7__8" = None
  /\ py_int (String (ascii_of_nat 28) "7") = None
  /\ py_int (String (ascii_of_nat 31) "7") = None
  /\ py_int (String "7" (String (ascii_of_nat 0) "")) = None.
Proof. repeat split; vm_compute; reflexivity. Qed.

(** At most [max_str_digits] digits, leading zeros counted. *)
Lemma py_int_digit_limit :
  is_Some (py_int (string_of_list_ascii (repeat "1"%char max_str_digits)))
  /\ py_int (string_of_list_ascii (repeat "1"%char (S max_str_digits))) = None
  /\ py_int (string_of_list_ascii (repeat "0"%char (S max_str_digits))) = None.
Proof.
  split; [|split].
  - apply (bool_decide_unpack _). vm_compute. exact I.
  - vm_compute. reflexivity.
  - vm_compute. reflexivity.
Qed.

(** ** The [__main__] block *)

Lemma validate_same_length (found expected : list Q) :
  length found = length expected -> exists valid, validate found expected = Some valid.
Proof.
  intros H. unfold validate, np_allclose, np_broadcast.
  rewrite (proj2 (Nat.eqb_eq _ _) H). eauto.
Qed.

Lemma main_block_too_few G rt argv w :
  length argv < 3 ->
  main_block G rt argv w
  = (Some 1%Z, mk_world (host w) (device w) (launches w)
                 ((printed w ++ [Err_too_few_arguments]) ++ [Usage]) (ticks w) (draws w)).
Proof.
  intros H. unfold main_block. rewrite (proj2 (Nat.ltb_lt _ _) H). reflexivity.
Qed.

Lemma main_block_not_integer G rt argv w :
  3 <= length argv -> py_int (argv_at argv 1) = None ->
  main_block G rt argv w
  = (Some 1%Z, mk_world (host w) (device w) (launches w)
                 (printed w ++ [Err_dimension_not_integer]) (ticks w) (draws w)).
Proof.
  intros H Hint. unfold main_block. rewrite (proj2 (Nat.ltb_ge _ _) H), Hint. reflexivity.
Qed.

Lemma main_block_no_kernel G rt argv w N :
  3 <= length argv -> py_int (argv_at argv 1) = Some N ->
  lookup_global G ("gemv_" +:+ argv_at argv 2) = None ->
  main_block G rt argv w
  = (Some 1%Z, mk_world (host w) (device w) (launches w)
                 ((printed w ++ [Err_no_such_kernel (argv_at argv 2)])
                  ++ [Available_versions (available_versions G)]) (ticks w) (draws w)).
Proof.
  intros H Hint Hk. unfold main_block.
  rewrite (proj2 (Nat.ltb_ge _ _) H), Hint. cbn zeta. rewrite Hk. reflexivity.
Qed.

Lemma main_block_not_positive G rt argv w N kernel :
  3 <= length argv -> py_int (argv_at argv 1) = Some N ->
  lookup_global G ("gemv_" +:+ argv_at argv 2) = Some kernel ->
  (N <= 0)%Z ->
  main_block G rt argv w
  = (Some 1%Z, mk_world (host w) (device w) (launches w)
                 (printed w ++ [Err_dimension_not_positive]) (ticks w) (draws w)).
Proof.
  intros H Hint Hk HN. unfold main_block.
  rewrite (proj2 (Nat.ltb_ge _ _) H), Hint. cbn zeta.
  rewrite Hk, (proj2 (Z.leb_le _ _) HN). reflexivity.
Qed.

Lemma main_block_validated G rt argv w N kernel found expected w' valid :
  3 <= length argv -> py_int (argv_at argv 1) = Some N ->
  lookup_global G ("gemv_" +:+ argv_at argv 2) = Some kernel ->
  (0 < N)%Z ->
  solve rt kernel N w = (Some (found, expected), w') ->
  validate found expected = Some valid ->
  main_block G rt argv w
  = if valid then (Some 0%Z, w')
    else (Some 1%Z, mk_world (host w') (device w') (launches w')
                      (((printed w' ++ [Err_not_validated]) ++ [Found found])
                       ++ [Expected expected]) (ticks w') (draws w')).
Proof.
  intros H Hint Hk HN Hsolve Hvalid. unfold main_block.
  rewrite (proj2 (Nat.ltb_ge _ _) H), Hint. cbn zeta.
  rewrite Hk, (proj2 (Z.leb_gt _ _) HN).
  rewrite (bind_returns _ _ _ _ _ Hsolve). cbn beta iota.
  rewrite Hvalid. destruct valid; reflexivity.
Qed.

(** C5.  For a dimension argument of ASCII characters, and provided no
    run-time error occurs, the program exits with status [1] exactly when
    there are fewer than two arguments, or the dimension is not an integer
    (as [int] reads it), or it is not positive, or the version tag names no
    kernel, or the result fails validation; in the last case the last three
    lines printed are the error, the vector found and the vector expected;
    and in every other run the status is [0]. *)
Theorem main_block_exit_status (G : list (string * pyobj)) (rt : runtime)
    (argv : list string) (w : world) :
  is_ascii (argv_at argv 1) = true ->
  runs_through G rt argv w ->
  let r := main_block G rt argv w in
  (exit_status r.1 = 1%Z \/ exit_status r.1 = 0%Z)
  /\ (exit_status r.1 = 1%Z <->
      length argv < 3
      \/ py_int (argv_at argv 1) = None
      \/ (exists N, py_int (argv_at argv 1) = Some N /\ (N <= 0)%Z)
      \/ lookup_global G ("gemv_" +:+ argv_at argv 2) = None
      \/ exists found expected, validation_fails G rt argv w found expected)
  /\ (forall found expected,
        validation_fails G rt argv w found expected ->
        exists before,
          printed r.2 = before ++ [Err_not_validated; Found found; Expected expected]).
Proof.
  intros _ Hruns r. subst r.
  destruct (Nat.lt_ge_cases (length argv) 3) as [Hlen|Hlen].
  { rewrite main_block_too_few by exact Hlen. cbn [fst snd exit_status default printed].
    split; [now left|]. split; [split; auto|].
    intros found expected (N & kernel & w' & Hlen' & _). lia. }
  destruct (py_int (argv_at argv 1)) as [N|] eqn:Hint.
  2:{ rewrite main_block_not_integer by assumption.
      cbn [fst snd exit_status default printed].
      split; [now left|]. split; [split; auto|].
      intros found expected (N & kernel & w' & _ & Hint' & _). congruence. }
  destruct (lookup_global G ("gemv_" +:+ argv_at argv 2)) as [kernel|] eqn:Hk.
  2:{ rewrite (main_block_no_kernel G rt argv w N) by assumption.
      cbn [fst snd exit_status default printed].
      split; [now left|]. split; [split; auto 6|].
      intros found expected (N' & kernel & w' & _ & _ & Hk' & _). congruence. }
  destruct (Z.le_gt_cases N 0) as [HN|HN].
  { rewrite (main_block_not_positive G rt argv w N kernel) by assumption.
    cbn [fst snd exit_status default printed].
    split; [now left|]. split; [split; eauto 6|].
    intros found expected (N' & kernel' & w' & _ & Hint' & _ & HN' & _).
    rewrite Hint in Hint'. injection Hint' as <-. lia. }
  destruct (Hruns N kernel Hint Hk HN) as (found & expected & w' & Hsolve & Hsame).
  destruct (validate_same_length found expected Hsame) as [valid Hvalid].
  rewrite (main_block_validated G rt argv w N kernel found expected w' valid) by assumption.
  assert (Hfails : forall found' expected',
             validation_fails G rt argv w found' expected' ->
             found' = found /\ expected' = expected /\ valid = false).
  { intros found' expected' (N' & kernel' & w'' & _ & Hint' & Hk' & _ & Hs & Hv).
    rewrite Hint in Hint'. injection Hint' as <-.
    rewrite Hk in Hk'. injection Hk' as <-.
    rewrite Hsolve in Hs. injection Hs as <- <- <-.
    rewrite Hvalid in Hv. injection Hv as ->. auto. }
  destruct valid; cbn [fst snd exit_status default printed].
  - split; [now right|]. split.
    + split; [discriminate|].
      intros [?|[?|[(N' & Hint' & ?)|[?|(f' & e' & Hf)]]]]; try lia; try congruence.
      { injection Hint' as <-. lia. }
      destruct (Hfails f' e' Hf) as (_ & _ & ?). discriminate.
    + intros f' e' Hf. destruct (Hfails f' e' Hf) as (_ & _ & ?). discriminate.
  - split; [now left|]. split.
    + split; [|reflexivity]. intros _. do 4 right. exists found, expected.
      exists N, kernel, w'. auto 10.
    + intros f' e' Hf. destruct (Hfails f' e' Hf) as (-> & -> & _).
      exists (printed w'). now rewrite <- !app_assoc.
Qed.

(** ** The program on its own kernels *)

Lemma gemv_row_sum alpha A x beta (y : list Q) i :
  (gemv_row alpha A x beta y i == alpha * row_dot A x i (shape1 A) + beta * at1 y i)%Q.
Proof.
  unfold gemv_row, row_dot.
  rewrite (fold_left_big_sum (fun j => at2 A i j * at1 x j)%Q). ring.
Qed.

Lemma at1_fmap_seq (f : nat -> Q) (n i : nat) : i < n -> at1 (f <$> seq 0 n) i = f i.
Proof.
  intros Hi. unfold at1. now rewrite list_lookup_fmap, lookup_seq_lt by exact Hi.
Qed.

(** A dispatched kernel, called on operands of matching shapes, returns a
    new vector holding [alpha*(A @ x) + beta*y] and leaves the arrays that
    were there. *)
Lemma dispatched_call_returns (version : string) (f : pyobj) rt alpha A x beta y
    (w : world) (a : ndarray2) (xv yv : list Q) :
  lookup_global module_globals ("gemv_" +:+ version) = Some f ->
  fair rt ->
  gemv_operands w A x y a xv yv ->
  exists r w' found,
    call f rt alpha A x beta y w = (Some r, w')
    /\ host w' !! r = Some (Arr1 found)
    /\ (forall k, k < length (host w) -> host w' !! k = host w !! k)
    /\ length found = shape0 a
    /\ forall i, i < shape0 a ->
         (at1 found i == alpha * row_dot a xv i (shape1 a) + beta * at1 yv i)%Q.
Proof.
  intros Hf (Hp & Hc & _ & _) Hops.
  destruct (dispatch_cases version f Hf) as [[_ ->]|[[_ ->]|[_ ->]]]; cbn [call].
  - destruct Hops as (HA & Hx & Hy & _).
    rewrite (gemv_v1_returns rt alpha A x beta y w a xv yv) by auto.
    do 3 eexists. split; [reflexivity|]. cbn [host set_host]. split; [|split; [|split]].
    + now apply list_lookup_middle.
    + intros k Hk. now apply lookup_app_l.
    + now rewrite length_fmap, length_seq.
    + intros i Hi. rewrite at1_fmap_seq by exact Hi. apply gemv_row_sum.
  - destruct (gemv_v2_returns alpha A x beta y w a xv yv Hops) as (o & Hr & Hl & Hv).
    rewrite Hr. do 3 eexists. split; [reflexivity|]. cbn [host set_host].
    split; [|split; [|split]].
    + now rewrite lookup_app_after.
    + intros k Hk. now apply lookup_app_l.
    + exact Hl.
    + intros i Hi. now rewrite Hv.
  - destruct (gemv_v3_returns rt alpha A x beta y w a xv yv (Hc _ _) Hops)
      as (t1 & t2 & Hr).
    rewrite Hr. do 3 eexists. split; [reflexivity|]. cbn [host].
    split; [|split; [|split]].
    + now apply list_lookup_middle.
    + intros k Hk. now apply lookup_app_l.
    + now rewrite length_fmap, length_seq.
    + intros i Hi. rewrite at1_fmap_seq by exact Hi. apply gemv_row_sum.
Qed.

Lemma with_time_region_returns {A : Type} rt off (body : IO A) (w w' : world) (a : A) :
  body (mk_world (host w) (device w) (launches w) (printed w) (S (ticks w)) (draws w))
  = (Some a, w') ->
  exists t e,
    with_time_region rt off body w
    = (Some (t, a),
       mk_world (host w') (device w') (launches w') (printed w') (S (ticks w')) (draws w'))
    /\ elapsed_time t = Some e.
Proof.
  intros Hbody. unfold with_time_region, bind, tick. cbn [fst snd]. rewrite Hbody.
  do 2 eexists. split; reflexivity.
Qed.

Lemma solve_returns (version : string) (kernel : pyobj) rt (N : Z) (w : world) :
  lookup_global module_globals ("gemv_" +:+ version) = Some kernel ->
  fair rt ->
  (0 < N)%Z ->
  exists found expected w',
    solve rt kernel N w = (Some (found, expected), w')
    /\ length found = Z.to_nat N /\ length expected = Z.to_nat N
    /\ forall i, i < Z.to_nat N -> (at1 found i == at1 expected i)%Q.
Proof.
  intros Hk Hfair HN. unfold solve.
  set (n := Z.to_nat N).
  unfold np_random_rand_F at 1, bind at 1, bind at 1, draw at 1. cbn [fst snd].
  unfold host_alloc at 1. cbn [host set_host device launches printed ticks draws].
  set (a := mk_ndarray2 n n _).
  unfold np_random_rand at 1, bind at 1, bind at 1, draw at 1. cbn [fst snd].
  unfold host_alloc at 1. cbn [host set_host device launches printed ticks draws].
  set (xv := _ <$> seq 0 n).
  unfold bind at 1, host_alloc at 1. cbn [host set_host device launches printed ticks draws].
  cbn zeta.
  rewrite !length_app. cbn [length]. rewrite <- !app_assoc. cbn [app].
  set (h := host w ++ [Arr2 a; Arr1 xv; Arr1 (np_ones n)]).
  set (w3 := set_host h _).
  assert (Hops : gemv_operands
                   (mk_world (host w3) (device w3) (launches w3) (printed w3)
                      (S (ticks w3)) (draws w3))
                   (length (host w)) (length (host w) + 1) (length (host w) + 1 + 1)
                   a xv (np_ones n)).
  { unfold gemv_operands. cbn [host]. unfold w3. cbn [host set_host]. subst h. repeat split.
    - now apply list_lookup_middle.
    - now rewrite lookup_app_after.
    - replace (length (host w) + 1 + 1) with (length (host w) + 2) by lia.
      now rewrite lookup_app_after.
    - subst xv. now rewrite length_fmap, length_seq.
    - apply repeat_length. }
  destruct (dispatched_call_returns version kernel rt 0.2%Q _ _ 1%Q _ _ a xv (np_ones n)
              Hk Hfair Hops) as (r & w4 & found & Hcall & Hr & Hframe & Hlen & Hval).
  destruct (with_time_region_returns rt 0 _ w3 w4 r Hcall) as (t & e & Htimed & He).
  rewrite (bind_returns _ _ _ _ _ Htimed). cbn beta iota.
  rewrite He. cbn [get]. unfold bind at 1, ret at 1. unfold bind at 1, print at 1.
  cbn [host device launches printed ticks draws].
  set (w5 := mk_world (host w4) _ _ _ _ _).
  assert (Hops5 : gemv_operands w5 (length (host w)) (length (host w) + 1)
                    (length (host w) + 1 + 1) a xv (np_ones n)).
  { destruct Hops as (HA & Hx & Hy & Hxv & Hyv). cbn [host] in HA, Hx, Hy.
    assert (Hh : length h = length (host w) + 3).
    { subst h. rewrite length_app. reflexivity. }
    unfold w3 in Hframe, HA, Hx, Hy. cbn [host set_host] in Hframe, HA, Hx, Hy.
    unfold gemv_operands, w5. cbn [host]. repeat split; try assumption.
    - rewrite Hframe by lia. exact HA.
    - rewrite Hframe by lia. exact Hx.
    - rewrite Hframe by lia. exact Hy. }
  destruct (gemv_v2_returns 0.2%Q _ _ 1%Q _ w5 a xv (np_ones n) Hops5)
    as (expected & Hv2 & Hlen2 & Hval2).
  rewrite (bind_returns _ _ _ _ _ Hv2).
  set (w6 := set_host _ w5).
  assert (Hfound : host w6 !! r = Some (Arr1 found)).
  { subst w6. cbn [host set_host w5]. now apply lookup_app_l_Some. }
  assert (Hexp : host w6 !! (length (host w5) + 3) = Some (Arr1 expected)).
  { subst w6. cbn [host set_host]. now rewrite lookup_app_after. }
  rewrite (bind_returns _ _ _ _ _ (read_1d w6 r found Hfound)).
  rewrite (bind_returns _ _ _ _ _ (read_1d w6 _ expected Hexp)).
  exists found, expected, w6. split; [reflexivity|].
  cbn [shape0 a] in Hlen, Hlen2, Hval, Hval2. subst a. cbn [shape0 shape1] in *.
  repeat split; try assumption.
  intros i Hi. rewrite Hval, Hval2 by exact Hi. reflexivity.
Qed.

(** On the kernels of the program no run-time error occurs. *)
Lemma main_runs_through rt (argv : list string) (w : world) :
  fair rt -> runs_through module_globals rt argv w.
Proof.
  intros Hfair N kernel _ Hk HN.
  destruct (solve_returns (argv_at argv 2) kernel rt N w Hk Hfair HN)
    as (found & expected & w' & Hsolve & Hl1 & Hl2 & _).
  exists found, expected, w'. split; [exact Hsolve|lia].
Qed.

Lemma validate_accepts (found expected : list Q) :
  length found = length expected ->
  (forall i, i < length found -> (at1 found i == at1 expected i)%Q) ->
  validate found expected = Some true.
Proof.
  intros Hlen Heq. unfold validate, np_allclose, np_broadcast.
  rewrite (proj2 (Nat.eqb_eq _ _) Hlen). f_equal.
  apply (forallb_zip_at1 (np_isclose 1e-5 1e-8)); [exact Hlen|].
  intros i Hi. unfold np_isclose. apply Qle_bool_iff.
  assert (Hz : (Qabs (at1 found i - at1 expected i) == 0)%Q).
  { rewrite (Heq i Hi).
    assert (Hd : (at1 expected i - at1 expected i == 0)%Q) by ring.
    rewrite Hd. reflexivity. }
  rewrite Hz. pose proof (Qabs_nonneg (at1 expected i)) as Hnn.
  assert (Hr : (0 <= 1e-5 * Qabs (at1 expected i))%Q).
  { apply Qmult_le_0_compat; [discriminate|exact Hnn]. }
  assert (Ha : (0 <= 1e-8)%Q) by discriminate.
  lra.
Qed.

(** On its own kernels, with accepted arguments, the program validates its
    result and exits with status [0]. *)
Lemma main_accepts rt (argv : list string) (N : Z) (kernel : pyobj) :
  fair rt ->
  3 <= length argv ->
  py_int (argv_at argv 1) = Some N ->
  lookup_global module_globals ("gemv_" +:+ argv_at argv 2) = Some kernel ->
  (0 < N)%Z ->
  (main rt argv).1 = 0%Z.
Proof.
  intros Hfair Hlen Hint Hk HN. unfold main. cbn [fst].
  destruct (solve_returns (argv_at argv 2) kernel rt N empty_world Hk Hfair HN)
    as (found & expected & w' & Hsolve & Hl1 & Hl2 & Heq).
  rewrite (main_block_validated module_globals rt argv empty_world N kernel found expected
             w' true); try assumption; [reflexivity|].
  apply validate_accepts; [lia|]. now rewrite Hl1.
Qed.

Lemma main_block_exit_status_witness :
  exit_status
    (main_block perturbed_globals sample_runtime ["demo.py"; "2"; "bad"]%string
       empty_world).1 = 1%Z.
Proof.
  apply (main_block_exit_status perturbed_globals sample_runtime
           ["demo.py"; "2"; "bad"]%string empty_world).
  - reflexivity.
  - intros N kernel Hint Hk HN. vm_compute in Hint. injection Hint as <-.
    vm_compute in Hk. injection Hk as <-.
    do 3 eexists. split; [vm_compute; reflexivity|reflexivity].
  - do 4 right. do 2 eexists. exists 2%Z. do 2 eexists.
    split; [cbn; lia|]. split; [reflexivity|]. split; [reflexivity|].
    split; [lia|]. split; [vm_compute; reflexivity|vm_compute; reflexivity].
Defined.

(** * Further properties *)

(** ** The tiled kernel on any block *)

Lemma survivors_live (N blk tid : nat) (order : list nat) :
  order ≡ₚ seq 0 BLOCK_SIZE ->
  tid ∈ survivors N BLOCK_SIZE blk order <-> tid < live_threads N blk.
Proof.
  intros Hp. unfold survivors. rewrite list_elem_of_filter, (order_elem BLOCK_SIZE) by exact Hp.
  unfold cuda_grid, live_threads. lia.
Qed.

Lemma survivors_NoDup (N blk : nat) (order : list nat) :
  order ≡ₚ seq 0 BLOCK_SIZE -> NoDup (survivors N BLOCK_SIZE blk order).
Proof. intros Hp. apply NoDup_filter. now apply order_NoDup with BLOCK_SIZE. Qed.

Lemma live_threads_le (N blk : nat) : live_threads N blk <= BLOCK_SIZE.
Proof. unfold live_threads. lia. Qed.

(** After the loads of a tile, the slots of the live threads hold the tile
    of [x] and the others are as they were. *)
Lemma load_survivors (x : list Q) (N blk b : nat) (order : list nat) (lx : list Q) (j : nat) :
  order ≡ₚ seq 0 BLOCK_SIZE ->
  length lx = BLOCK_SIZE ->
  at1 (fold_left (fun lx tid => load_tile x BLOCK_SIZE b tid lx)
         (survivors N BLOCK_SIZE blk order) lx) j
  = if (j <? live_threads N blk)%nat then at1 x (j + b * BLOCK_SIZE) else at1 lx j.
Proof.
  intros Hp Hlx. pose proof (live_threads_le N blk) as Hle.
  destruct (Nat.ltb_spec j (live_threads N blk)) as [Hj|Hj].
  - apply load_phase; [now apply survivors_NoDup|now apply survivors_live|lia].
  - apply (fold_step_miss (fun t => t) (fun tid lx => load_tile x BLOCK_SIZE b tid lx)).
    + intros. now apply at1_insert_ne.
    + rewrite list_fmap_id, survivors_live by exact Hp. lia.
Qed.

Lemma tile_value_in_tile (x : list Q) (junk : nat -> Q) (live b j : nat) :
  j < BLOCK_SIZE ->
  tile_value x junk live (j + b * BLOCK_SIZE)
  = if (j <? live)%nat then at1 x (j + b * BLOCK_SIZE) else junk j.
Proof.
  intros Hj. unfold tile_value.
  now rewrite Nat.Div0.mod_add, Nat.mod_small by exact Hj.
Qed.

Lemma tile_iteration_block (A : ndarray2) (x : list Q) (blk : nat)
    (order : nat -> list nat) (junk : nat -> Q) (b : nat) (st : list Q * list Q) :
  (forall ph, order ph ≡ₚ seq 0 BLOCK_SIZE) ->
  length st.1 = BLOCK_SIZE -> length st.2 = BLOCK_SIZE ->
  (forall j, live_threads (shape0 A) blk <= j < BLOCK_SIZE -> at1 st.1 j = junk j) ->
  let st' := tile_iteration A x BLOCK_SIZE blk order b st in
  length st'.1 = BLOCK_SIZE /\ length st'.2 = BLOCK_SIZE
  /\ (forall j, live_threads (shape0 A) blk <= j < BLOCK_SIZE -> at1 st'.1 j = junk j)
  /\ forall tid, tid < live_threads (shape0 A) blk ->
       at1 st'.2 tid
       = fold_left
           (fun prod c =>
              prod + at2 A (cuda_grid BLOCK_SIZE blk tid) c
                     * tile_value x junk (live_threads (shape0 A) blk) c)%Q
           (seq (b * BLOCK_SIZE) BLOCK_SIZE) (at1 st.2 tid).
Proof.
  intros Hord Hlx Hps Hjunk. unfold tile_iteration. cbn [fst snd].
  pose proof (live_threads_le (shape0 A) blk) as Hle.
  split; [now rewrite load_phase_length|].
  split; [now rewrite accumulate_phase_length|].
  split.
  - intros j Hj. rewrite load_survivors by auto.
    destruct (Nat.ltb_spec j (live_threads (shape0 A) blk)); [lia|now apply Hjunk].
  - intros tid Htid.
    rewrite accumulate_phase;
      [|now apply survivors_NoDup|now apply survivors_live|lia].
    unfold accumulate_tile.
    pose proof (fold_left_seq_shift
                  (fun prod c =>
                     prod + at2 A (cuda_grid BLOCK_SIZE blk tid) c
                            * tile_value x junk (live_threads (shape0 A) blk) c)%Q
                  (b * BLOCK_SIZE) 0 BLOCK_SIZE (at1 st.2 tid)) as Hshift.
    cbn [Nat.add] in Hshift. rewrite <- Hshift.
    apply fold_left_ext_in. intros acc j Hj. apply elem_of_seq in Hj.
    rewrite load_survivors, tile_value_in_tile by (auto; lia).
    destruct (Nat.ltb_spec j (live_threads (shape0 A) blk)) as [_|Hge]; [reflexivity|].
    rewrite Hjunk by lia. reflexivity.
Qed.

Lemma tile_loop_block (A : ndarray2) (x : list Q) (blk : nat)
    (order : nat -> list nat) (junk : nat -> Q) (st : list Q * list Q) (tiles : nat) :
  (forall ph, order ph ≡ₚ seq 0 BLOCK_SIZE) ->
  length st.1 = BLOCK_SIZE -> length st.2 = BLOCK_SIZE ->
  (forall j, live_threads (shape0 A) blk <= j < BLOCK_SIZE -> at1 st.1 j = junk j) ->
  let st' := fold_left (fun st b => tile_iteration A x BLOCK_SIZE blk order b st)
               (seq 0 tiles) st in
  length st'.1 = BLOCK_SIZE /\ length st'.2 = BLOCK_SIZE
  /\ (forall j, live_threads (shape0 A) blk <= j < BLOCK_SIZE -> at1 st'.1 j = junk j)
  /\ forall tid, tid < live_threads (shape0 A) blk ->
       at1 st'.2 tid
       = fold_left
           (fun prod c =>
              prod + at2 A (cuda_grid BLOCK_SIZE blk tid) c
                     * tile_value x junk (live_threads (shape0 A) blk) c)%Q
           (seq 0 (tiles * BLOCK_SIZE)) (at1 st.2 tid).
Proof.
  intros Hord Hlx Hps Hjunk. induction tiles as [|k IH].
  - cbn [seq fold_left Nat.mul]. repeat split; assumption.
  - rewrite seq_S, fold_left_app. cbn [fold_left Nat.add].
    destruct IH as (IH1 & IH2 & IH3 & IH4).
    destruct (tile_iteration_block A x blk order junk k _ Hord IH1 IH2 IH3)
      as (H1 & H2 & H3 & H4).
    repeat split; try assumption.
    intros tid Htid. rewrite H4, IH4 by exact Htid.
    replace (S k * BLOCK_SIZE) with (k * BLOCK_SIZE + BLOCK_SIZE) by lia.
    rewrite seq_app, fold_left_app. reflexivity.
Qed.

Lemma shared_array_at1 (junk : nat -> Q) (j : nat) :
  j < BLOCK_SIZE -> at1 (shared_array junk) j = junk j.
Proof. intros Hj. unfold shared_array. now apply at1_fmap_seq. Qed.

Lemma gemv_cuda_shared_block alpha A x beta blk order junk (y : list Q) tid :
  (forall ph, order ph ≡ₚ seq 0 BLOCK_SIZE) ->
  length y = shape0 A ->
  tid < live_threads (shape0 A) blk ->
  at1 (_gemv_cuda_shared alpha A x beta BLOCK_SIZE blk order junk y)
    (cuda_grid BLOCK_SIZE blk tid)
  = (alpha * fold_left
               (fun prod c =>
                  prod + at2 A (cuda_grid BLOCK_SIZE blk tid) c
                         * tile_value x junk (live_threads (shape0 A) blk) c)
               (seq 0 (shape1 A / BLOCK_SIZE * BLOCK_SIZE)) 0
     + beta * at1 y (cuda_grid BLOCK_SIZE blk tid))%Q.
Proof.
  intros Hord Hy Htid. unfold _gemv_cuda_shared. cbn zeta.
  destruct (tile_loop_block A x blk order junk (shared_array junk, repeat 0%Q BLOCK_SIZE)
              (shape1 A / BLOCK_SIZE) Hord) as (_ & _ & _ & Hsum).
  { cbn [fst]. unfold shared_array. now rewrite length_fmap, length_seq. }
  { cbn [snd]. apply repeat_length. }
  { intros j Hj. cbn [fst]. apply shared_array_at1. lia. }
  set (st := fold_left _ (seq 0 (shape1 A / BLOCK_SIZE)) _) in *.
  rewrite (fold_step_hit (cuda_grid BLOCK_SIZE blk)
             (fun tid y => <[ cuda_grid BLOCK_SIZE blk tid
                              := (alpha * at1 st.2 tid
                                  + beta * at1 y (cuda_grid BLOCK_SIZE blk tid))%Q ]> y)
             (fun tid v => (alpha * at1 st.2 tid + beta * v)%Q)).
  - rewrite Hsum by exact Htid. cbn [snd].
    assert (Hz : at1 (repeat 0%Q BLOCK_SIZE) tid = 0%Q).
    { unfold at1. destruct (repeat 0%Q BLOCK_SIZE !! tid) as [q|] eqn:E; [|reflexivity].
      apply list_elem_of_lookup_2, list_elem_of_In, repeat_spec in E. now subst. }
    now rewrite Hz.
  - intros. apply length_insert.
  - intros. now apply at1_insert_ne.
  - intros. now apply at1_insert_eq.
  - pose proof (cuda_grid_inj BLOCK_SIZE blk) as Hinj.
    apply (NoDup_fmap_2 (cuda_grid BLOCK_SIZE blk)). now apply survivors_NoDup.
  - now apply survivors_live.
  - unfold cuda_grid, live_threads in *. lia.
Qed.

Lemma launch_shared_row_eq alpha beta A x (y : list Q) nb blocks order junk i :
  length y = shape0 A ->
  blocks ≡ₚ seq 0 nb ->
  (forall blk ph, order blk ph ≡ₚ seq 0 BLOCK_SIZE) ->
  i < shape0 A ->
  i / BLOCK_SIZE < nb ->
  at1 (launch_gemv_cuda_shared blocks order junk BLOCK_SIZE alpha A x beta y) i
  = shared_row junk alpha A x beta y i.
Proof.
  intros Hy Hblocks Hord Hi Hlaunched. unfold launch_gemv_cuda_shared.
  pose proof BLOCK_SIZE_pos as Hpos.
  pose proof (Nat.div_mod_eq i BLOCK_SIZE) as Hdm.
  assert (Htid : i mod BLOCK_SIZE < live_threads (shape0 A) (i / BLOCK_SIZE)).
  { pose proof (Nat.mod_upper_bound i BLOCK_SIZE ltac:(lia)). unfold live_threads. lia. }
  rewrite (fold_owner_hit (i / BLOCK_SIZE) i
             (fun blk y =>
                _gemv_cuda_shared alpha A x beta BLOCK_SIZE blk (order blk) (junk blk) y)
             (fun v => (alpha * fold_left
                                  (fun prod c =>
                                     prod + at2 A i c
                                            * tile_value x (junk (i / BLOCK_SIZE)%nat)
                                                (live_threads (shape0 A) (i / BLOCK_SIZE)%nat) c)
                                  (seq 0 (shape1 A / BLOCK_SIZE * BLOCK_SIZE)%nat) 0
                        + beta * v)%Q)
             (shape0 A)).
  - reflexivity.
  - intros. apply gemv_cuda_shared_length.
  - intros blk l Hne. apply gemv_cuda_shared_other. intros tid Ht Heq.
    apply (order_elem BLOCK_SIZE) in Ht; [|apply Hord].
    apply Hne. rewrite <- Heq. symmetry. now apply block_of_row.
  - intros l Hl.
    pose proof (gemv_cuda_shared_block alpha A x beta (i / BLOCK_SIZE)
                  (order (i / BLOCK_SIZE)) (junk (i / BLOCK_SIZE)) l (i mod BLOCK_SIZE)
                  (Hord (i / BLOCK_SIZE)) Hl Htid) as Hrow.
    rewrite row_of_block in Hrow. exact Hrow.
  - rewrite Hblocks. apply NoDup_seq.
  - rewrite Hblocks. apply elem_of_seq. lia.
  - exact Hy.
Qed.

Lemma launched_block (N i : nat) : i < N -> i / BLOCK_SIZE < grid_blocks N.
Proof.
  intros Hi. apply Nat.Div0.div_lt_upper_bound.
  pose proof (grid_blocks_covers N). lia.
Qed.

(** X1.  What every surviving row of the tiled kernel ends with, for any
    [N] and [M]: the accumulation over the full tiles in which the entry of
    [x] is replaced, for the threads of the block that returned at the row
    guard, by what shared memory held before the launch. *)
Theorem gemv_cuda_shared_row_value (alpha beta : Q) (A : ndarray2) (x y : list Q)
    (blocks : list nat) (order : nat -> nat -> list nat) (junk : nat -> nat -> Q)
    (i : nat) :
  length y = shape0 A ->
  blocks ≡ₚ seq 0 (grid_blocks (shape0 A)) ->
  (forall blk ph, order blk ph ≡ₚ seq 0 BLOCK_SIZE) ->
  i < shape0 A ->
  at1 (launch_gemv_cuda_shared blocks order junk BLOCK_SIZE alpha A x beta y) i
  = shared_row junk alpha A x beta y i.
Proof.
  intros Hy Hblocks Hord Hi.
  apply launch_shared_row_eq with (nb := grid_blocks (shape0 A)); try assumption.
  now apply launched_block.
Qed.

Lemma gemv_cuda_shared_row_value_witness :
  at1 (launch_gemv_cuda_shared [1; 0]%nat (in_order BLOCK_SIZE) (junk_const 7) BLOCK_SIZE
         (1 # 5) (ones_matrix 130 130) (np_ones 130) 1 (np_ones 130)) 129
  = shared_row (junk_const 7) (1 # 5) (ones_matrix 130 130) (np_ones 130) 1 (np_ones 130) 129.
Proof.
  apply (gemv_cuda_shared_row_value (1 # 5) 1 (ones_matrix 130 130)
           (np_ones 130) (np_ones 130) [1; 0]%nat (in_order BLOCK_SIZE) (junk_const 7) 129).
  - reflexivity.
  - apply (bool_decide_unpack _). vm_compute. exact I.
  - intros blk ph. reflexivity.
  - vm_compute. lia.
Defined.

(** X2.  With fewer than [BLOCK_SIZE] columns the tile loop of the tiled
    kernel does not run at all: every row gets [alpha*0 + beta*y[i]],
    whatever [A] and [x] hold. *)
Theorem gemv_cuda_shared_small_matrix (alpha beta : Q) (A : ndarray2) (x y : list Q)
    (blocks : list nat) (order : nat -> nat -> list nat) (junk : nat -> nat -> Q)
    (i : nat) :
  shape1 A < BLOCK_SIZE ->
  length y = shape0 A ->
  blocks ≡ₚ seq 0 (grid_blocks (shape0 A)) ->
  (forall blk ph, order blk ph ≡ₚ seq 0 BLOCK_SIZE) ->
  i < shape0 A ->
  at1 (launch_gemv_cuda_shared blocks order junk BLOCK_SIZE alpha A x beta y) i
  = (alpha * 0 + beta * at1 y i)%Q.
Proof.
  intros HM Hy Hblocks Hord Hi.
  rewrite (launch_shared_row_eq alpha beta A x y (grid_blocks (shape0 A)));
    try assumption; [|now apply launched_block].
  unfold shared_row. now rewrite (Nat.div_small (shape1 A)) by exact HM.
Qed.

Lemma gemv_cuda_shared_small_matrix_witness :
  at1 (launch_gemv_cuda_shared [0]%nat (in_order BLOCK_SIZE) (junk_const 7) BLOCK_SIZE
         2 (mk_ndarray2 2 2 [1; 2; 3; 4]%Q) [1; 1]%Q 1 [10; 20]%Q) 1
  = (2 * 0 + 1 * at1 [10; 20] 1)%Q.
Proof.
  apply (gemv_cuda_shared_small_matrix 2 1 (mk_ndarray2 2 2 [1; 2; 3; 4]%Q) [1; 1]%Q
           [10; 20]%Q [0]%nat (in_order BLOCK_SIZE) (junk_const 7) 1).
  - vm_compute. lia.
  - reflexivity.
  - reflexivity.
  - intros blk ph. reflexivity.
  - cbn. lia.
Defined.

Lemma tiled_row_is_gemv_row alpha A x beta (y : list Q) i :
  shape1 A mod BLOCK_SIZE = 0 ->
  tiled_row alpha A x beta y i = gemv_row alpha A x beta y i.
Proof.
  intros Hmod. unfold tiled_row, gemv_row.
  pose proof (Nat.div_mod_eq (shape1 A) BLOCK_SIZE) as Hdm.
  replace (shape1 A / BLOCK_SIZE * BLOCK_SIZE) with (shape1 A) by lia. reflexivity.
Qed.

(** X3.  When both dimensions are multiples of [BLOCK_SIZE], the tiled
    kernel and the naive kernel leave the same vector, each on any grid that
    covers the rows and under any schedule: the two accumulate the same
    terms in the same order. *)
Theorem tiled_and_naive_kernels_agree (alpha beta : Q) (A : ndarray2) (x y : list Q)
    (blocks : list nat) (order : nat -> nat -> list nat) (junk : nat -> nat -> Q)
    (num_blocks block_size : nat) (sched : list (nat * nat)) :
  shape0 A mod BLOCK_SIZE = 0 ->
  shape1 A mod BLOCK_SIZE = 0 ->
  length y = shape0 A ->
  blocks ≡ₚ seq 0 (grid_blocks (shape0 A)) ->
  (forall blk ph, order blk ph ≡ₚ seq 0 BLOCK_SIZE) ->
  shape0 A <= num_blocks * block_size ->
  sched ≡ₚ grid_threads num_blocks block_size ->
  launch_gemv_cuda_shared blocks order junk BLOCK_SIZE alpha A x beta y
  = launch_gemv_cuda sched block_size alpha A x beta y.
Proof.
  intros HN HM Hy Hblocks Hord Hcover Hsched.
  rewrite (launch_shared_all_full alpha beta A x y) by assumption.
  rewrite (launch_gemv_cuda_rows alpha A x beta y num_blocks block_size) by assumption.
  apply list_fmap_ext. intros _ i _. now apply tiled_row_is_gemv_row.
Qed.

Lemma tiled_and_naive_kernels_agree_witness :
  launch_gemv_cuda_shared [0]%nat (in_order BLOCK_SIZE) (junk_const 7) BLOCK_SIZE
    (1 # 5) (ones_matrix 128 128) (np_ones 128) 1 (np_ones 128)
  = launch_gemv_cuda (grid_threads 2 64) 64
      (1 # 5) (ones_matrix 128 128) (np_ones 128) 1 (np_ones 128).
Proof.
  apply (tiled_and_naive_kernels_agree (1 # 5) 1 (ones_matrix 128 128) (np_ones 128)
           (np_ones 128) [0]%nat (in_order BLOCK_SIZE) (junk_const 7) 2 64
           (grid_threads 2 64)).
  - reflexivity.
  - reflexivity.
  - reflexivity.
  - reflexivity.
  - intros blk ph. reflexivity.
  - vm_compute. lia.
  - reflexivity.
Defined.

(** ** The vector addition kernel *)

Lemma vecadd_cuda_length (x y : list Q) (i : nat) (z : list Q) :
  length (_vecadd_cuda x y i z) = length z.
Proof.
  unfold _vecadd_cuda. cbn zeta. destruct (length x <=? i)%nat; [reflexivity|].
  apply length_insert.
Qed.

Lemma launch_vecadd_cuda_length (sched : list (nat * nat)) (block_size : nat)
    (x y z : list Q) :
  length (launch_vecadd_cuda sched block_size x y z) = length z.
Proof.
  unfold launch_vecadd_cuda.
  apply (fold_step_length
           (fun bt z => _vecadd_cuda x y (cuda_grid block_size bt.1 bt.2) z)).
  intros. apply vecadd_cuda_length.
Qed.

Lemma launch_vecadd_cuda_at (x y z : list Q) (num_blocks block_size : nat)
    (sched : list (nat * nat)) (i : nat) :
  length x <= length z ->
  sched ≡ₚ grid_threads num_blocks block_size ->
  at1 (launch_vecadd_cuda sched block_size x y z) i
  = if ((i <? length x) && (i <? num_blocks * block_size))%nat
    then (at1 x i + at1 y i)%Q else at1 z i.
Proof.
  intros Hxz Hsched.
  destruct (Nat.ltb_spec i (num_blocks * block_size)) as [Hgrid|Hgrid].
  - destruct (grid_threads_covers sched num_blocks block_size i Hsched Hgrid)
      as (bt & Hbt & Hid).
    destruct (Nat.lt_ge_cases i (length z)) as [Hz|Hz].
    + unfold launch_vecadd_cuda. rewrite <- Hid.
      rewrite (fold_step_hit (fun bt : nat * nat => cuda_grid block_size bt.1 bt.2)
                 (fun bt z => _vecadd_cuda x y (cuda_grid block_size bt.1 bt.2) z)
                 (fun bt v =>
                    let i := cuda_grid block_size bt.1 bt.2 in
                    if (length x <=? i)%nat then v else (at1 x i + at1 y i)%Q)).
      * cbn zeta. rewrite Hid.
        destruct (Nat.leb_spec (length x) i), (Nat.ltb_spec i (length x));
          try lia; reflexivity.
      * intros. apply vecadd_cuda_length.
      * intros t l k Hk. unfold _vecadd_cuda. cbn zeta.
        destruct (length x <=? _)%nat; [reflexivity|]. now apply at1_insert_ne.
      * intros t l Hl. unfold _vecadd_cuda. cbn zeta.
        destruct (length x <=? _)%nat; [reflexivity|]. now apply at1_insert_eq.
      * now apply grid_threads_NoDup with num_blocks.
      * exact Hbt.
      * lia.
    + destruct (Nat.ltb_spec i (length x)); [lia|]. cbn [andb].
      unfold at1. rewrite !lookup_ge_None_2; [reflexivity|lia|].
      rewrite launch_vecadd_cuda_length. lia.
  - rewrite andb_false_r. unfold launch_vecadd_cuda.
    apply (fold_step_miss (fun bt : nat * nat => cuda_grid block_size bt.1 bt.2)
             (fun bt z => _vecadd_cuda x y (cuda_grid block_size bt.1 bt.2) z)).
    + intros t l k Hk. unfold _vecadd_cuda. cbn zeta.
      destruct (length x <=? _)%nat; [reflexivity|]. now apply at1_insert_ne.
    + rewrite Hsched, grid_threads_ids, elem_of_seq. lia.
Qed.

(** X4.  After a launch of [_vecadd_cuda] on any grid, under any schedule,
    on vectors [y] and [z] at least as long as [x] (the kernel guards its
    index with the length of [x] alone): [z[i]] is [x[i] + y[i]] for every
    index below the length of [x] that the grid reaches, and every other
    element of [z] is as it was: a grid that is too small leaves the tail of
    [z] unwritten. *)
Theorem vecadd_cuda_launch (x y z : list Q) (num_blocks block_size : nat)
    (sched : list (nat * nat)) (i : nat) :
  length x <= length z ->
  length x <= length y ->
  sched ≡ₚ grid_threads num_blocks block_size ->
  length (launch_vecadd_cuda sched block_size x y z) = length z
  /\ at1 (launch_vecadd_cuda sched block_size x y z) i
     = if ((i <? length x) && (i <? num_blocks * block_size))%nat
       then (at1 x i + at1 y i)%Q else at1 z i.
Proof.
  intros Hxz _ Hsched. split; [apply launch_vecadd_cuda_length|].
  now apply launch_vecadd_cuda_at.
Qed.

Lemma vecadd_cuda_launch_witness :
  at1 (launch_vecadd_cuda [(0, 1); (0, 0)]%nat 2 [1; 2; 3]%Q [10; 20; 30]%Q [7; 7; 7]%Q) 1
  = (if ((1 <? 3) && (1 <? 1 * 2))%nat then at1 [1; 2; 3] 1 + at1 [10; 20; 30] 1
     else at1 [7; 7; 7] 1)%Q.
Proof.
  apply (vecadd_cuda_launch [1; 2; 3]%Q [10; 20; 30]%Q [7; 7; 7]%Q 1 2
           [(0, 1); (0, 0)]%nat 1).
  - cbn. lia.
  - cbn. lia.
  - apply (bool_decide_unpack _). vm_compute. exact I.
Defined.

(** ** The variants as functions *)

(** X5.  Each of the functions the dispatch can select, called on an
    [N x M] matrix and vectors of lengths [M] and [N] (square or not, [N] a
    multiple of [BLOCK_SIZE] or not), returns a new vector of length [N]
    whose element [i] is [alpha * (sum over j < M of A[i,j]*x[j]) +
    beta*y[i]], and leaves every host array that was there as it was. *)
Theorem dispatched_variant_computes_gemv (version : string) (f : pyobj) (rt : runtime)
    (alpha beta : Q) (A x y : nat) (w : world) (a : ndarray2) (xv yv : list Q) :
  lookup_global module_globals ("gemv_" +:+ version) = Some f ->
  fair rt ->
  gemv_operands w A x y a xv yv ->
  exists y_ret w' out,
    call f rt alpha A x beta y w = (Some y_ret, w')
    /\ host w' !! y_ret = Some (Arr1 out)
    /\ length (host w) <= y_ret
    /\ (forall r, r < length (host w) -> host w' !! r = host w !! r)
    /\ length out = shape0 a
    /\ forall i, i < shape0 a ->
         (at1 out i == alpha * row_dot a xv i (shape1 a) + beta * at1 yv i)%Q.
Proof.
  intros Hf Hfair Hops.
  destruct (dispatched_call_returns version f rt alpha A x beta y w a xv yv Hf Hfair Hops)
    as (r & w' & out & Hcall & Hr & Hframe & Hlen & Hval).
  exists r, w', out. repeat split; try assumption.
  destruct (dispatch_cases version f Hf) as [[_ ->]|[[_ ->]|[_ ->]]]; cbn [call] in Hcall.
  - destruct (gemv_v1_fresh rt alpha A x beta y w) as [_ Hret].
    apply (Hret r). now rewrite Hcall.
  - destruct (gemv_v2_fresh alpha A x beta y w) as [_ Hret].
    apply (Hret r). now rewrite Hcall.
  - destruct (gemv_v3_fresh rt alpha A x beta y w) as [_ Hret].
    apply (Hret r). now rewrite Hcall.
Qed.

Lemma dispatched_variant_computes_gemv_witness :
  exists y_ret w' out,
    call (Py_gemv gemv_v1) sample_runtime 2 0 1 1 2 sample_world = (Some y_ret, w')
    /\ host w' !! y_ret = Some (Arr1 out)
    /\ length (host sample_world) <= y_ret
    /\ (forall r, r < length (host sample_world) -> host w' !! r = host sample_world !! r)
    /\ length out = 2
    /\ forall i, i < 2 ->
         (at1 out i == 2 * row_dot (mk_ndarray2 2 2 [1; 2; 3; 4]) [1; 1] i 2
                       + 1 * at1 [10; 20] i)%Q.
Proof.
  apply (dispatched_variant_computes_gemv "v1" (Py_gemv gemv_v1) sample_runtime 2 1 0 1 2
           sample_world (mk_ndarray2 2 2 [1; 2; 3; 4]%Q) [1; 1]%Q [10; 20]%Q).
  - reflexivity.
  - apply fair_sample_runtime.
  - repeat split; reflexivity.
Defined.

(** X6.  [gemv_v3] on the device: the call adds three buffers to the device
    store, the copies of [A] and [x], which the kernel leaves as uploaded,
    and [d_y], which holds the result; the vector returned on the host is a
    copy of [d_y]; buffers that were on the device before are untouched; and
    exactly one kernel launch is recorded. *)
Theorem gemv_v3_device_buffers (rt : runtime) (alpha beta : Q) (A x y : nat) (w : world)
    (a : ndarray2) (xv yv : list Q) :
  gemv_operands w A x y a xv yv ->
  exists out w',
    gemv_v3 rt alpha A x beta y w = (Some (length (host w)), w')
    /\ host w' = host w ++ [Arr1 out]
    /\ device w' = device w ++ [Arr2 a; Arr1 xv; Arr1 out]
    /\ length (launches w') = S (length (launches w))
    /\ length out = length yv.
Proof.
  intros Hops.
  destruct (gemv_v3_runs rt alpha A x beta y w a xv yv Hops) as (t1 & t2 & Hrun).
  cbn zeta in Hrun. do 2 eexists. split; [exact Hrun|]. cbn [host device launches].
  repeat split.
  - rewrite length_app. cbn. lia.
  - unfold launch_gemv_cuda.
    apply (fold_step_length
             (fun bt y => _gemv_cuda alpha a xv beta (cuda_grid BLOCK_SIZE bt.1 bt.2) y)).
    intros. apply gemv_cuda_length.
Qed.

Lemma gemv_v3_device_buffers_witness :
  exists out w',
    gemv_v3 sample_runtime 2 0 1 1 2 sample_world = (Some (length (host sample_world)), w')
    /\ host w' = host sample_world ++ [Arr1 out]
    /\ device w' = device sample_world
                   ++ [Arr2 (mk_ndarray2 2 2 [1; 2; 3; 4]%Q); Arr1 [1; 1]%Q; Arr1 out]
    /\ length (launches w') = S (length (launches sample_world))
    /\ length out = length [10; 20]%Q.
Proof.
  apply (gemv_v3_device_buffers sample_runtime 2 1 0 1 2 sample_world
           (mk_ndarray2 2 2 [1; 2; 3; 4]%Q) [1; 1]%Q [10; 20]%Q).
  repeat split; reflexivity.
Defined.

(** X7.  The two times [gemv_v3] prints: the transfer time is the sum of
    the two transfer regions (to the device, then back), the second region
    being constructed with the elapsed time of the first as its offset; the
    kernel time is that of the launch region alone; both are the event
    times, in milliseconds, scaled by [1e-3]. *)
Theorem gemv_v3_reports_times (rt : runtime) (alpha beta : Q) (A x y : nat) (w : world)
    (a : ndarray2) (xv yv : list Q) :
  gemv_operands w A x y a xv yv ->
  exists t_xfer t_kernel,
    printed (gemv_v3 rt alpha A x beta y w).2
    = printed w ++ [Cuda_transfer_times t_xfer; Cuda_kernel_time t_kernel]
    /\ (t_xfer == 1e-3 * ((event_time rt (1 + ticks w) - event_time rt (ticks w))
                          + (event_time rt (5 + ticks w) - event_time rt (4 + ticks w))))%Q
    /\ (t_kernel == 1e-3 * (event_time rt (3 + ticks w) - event_time rt (2 + ticks w)))%Q.
Proof.
  intros (HA & Hx & Hy & Hxv & Hyv).
  set (d := ((device w ++ [Arr2 a]) ++ [Arr1 xv]) ++ [Arr1 yv]).
  assert (H0 : d !! length (device w) = Some (Arr2 a)).
  { subst d. rewrite <- !app_assoc. now apply list_lookup_middle. }
  assert (H1 : d !! length (device w ++ [Arr2 a]) = Some (Arr1 xv)).
  { subst d. rewrite <- (app_assoc _ [Arr1 xv]). now apply list_lookup_middle. }
  assert (H2 : d !! length ((device w ++ [Arr2 a]) ++ [Arr1 xv]) = Some (Arr1 yv)).
  { subst d. now apply list_lookup_middle. }
  assert (H3 : forall v, <[length ((device w ++ [Arr2 a]) ++ [Arr1 xv]) := v]> d
                         = device w ++ [Arr2 a; Arr1 xv; v]).
  { intros v. subst d. rewrite insert_app_r_alt, Nat.sub_diag by lia.
    cbn. now rewrite <- !app_assoc. }
  assert (H4 : forall v, (device w ++ [Arr2 a; Arr1 xv; v])
                         !! length ((device w ++ [Arr2 a]) ++ [Arr1 xv]) = Some v).
  { intros v. rewrite <- app_assoc, length_app. cbn [app length].
    now rewrite lookup_app_after. }
  eexists. eexists. split; [|split].
  - unfold gemv_v3, with_time_region_cuda, cuda_to_device, copy_to_host, cuda_launch,
      elapsed_time_cuda, bind, get, ret, raise, tick, print, log_launch, host_read,
      host_alloc, device_read, device_alloc, device_write.
    repeat (cbn [host device set_host set_device launches printed ticks draws fst snd
                 cuda_t_start cuda_t_end cuda_time_off as_2d as_1d ret raise];
            fold d;
            first [rewrite HA | rewrite Hx | rewrite Hy | rewrite H0 | rewrite H1
                  | rewrite H2 | rewrite H3 | rewrite H4]).
    cbn [host device set_host set_device launches printed ticks draws fst snd
         cuda_t_start cuda_t_end cuda_time_off as_2d as_1d ret raise].
    rewrite <- app_assoc. cbn [app]. reflexivity.
  - cbn [Nat.add]. ring.
  - cbn [Nat.add]. ring.
Qed.

Lemma gemv_v3_reports_times_witness :
  exists t_xfer t_kernel,
    printed (gemv_v3 sample_runtime 2 0 1 1 2 sample_world).2
    = printed sample_world ++ [Cuda_transfer_times t_xfer; Cuda_kernel_time t_kernel]
    /\ (t_xfer == 1e-3 * ((event_time sample_runtime (1 + ticks sample_world)
                           - event_time sample_runtime (ticks sample_world))
                          + (event_time sample_runtime (5 + ticks sample_world)
                             - event_time sample_runtime (4 + ticks sample_world))))%Q
    /\ (t_kernel == 1e-3 * (event_time sample_runtime (3 + ticks sample_world)
                            - event_time sample_runtime (2 + ticks sample_world)))%Q.
Proof.
  apply (gemv_v3_reports_times sample_runtime 2 1 0 1 2 sample_world
           (mk_ndarray2 2 2 [1; 2; 3; 4]%Q) [1; 1]%Q [10; 20]%Q).
  repeat split; reflexivity.
Defined.

Lemma host_setitem_unchanged {T : Type} (field : world -> T) (r i : nat) (v : Q) :
  (forall h w, field (set_host h w) = field w) ->
  unchanged field (host_setitem r i v).
Proof.
  intros Hfield w. unfold host_setitem.
  destruct (host w !! r) as [[l|a]|]; cbn [snd]; [apply Hfield|reflexivity|reflexivity].
Qed.

(** X8.  The two CPU variants stay on the host: whatever their arguments,
    and whether they return or raise, [gemv_v1] and [gemv_v2] leave the
    device store as it was, launch no kernel and print nothing. *)
Theorem cpu_variants_stay_on_host (rt : runtime) (alpha beta : Q) (A x y : nat) :
  (unchanged device (gemv_v1 rt alpha A x beta y)
   /\ unchanged launches (gemv_v1 rt alpha A x beta y)
   /\ unchanged printed (gemv_v1 rt alpha A x beta y))
  /\ (unchanged device (gemv_v2 alpha A x beta y)
      /\ unchanged launches (gemv_v2 alpha A x beta y)
      /\ unchanged printed (gemv_v2 alpha A x beta y)).
Proof.
  split; repeat split.
  - unfold gemv_v1. unchanged. apply unchanged_for_each. intros i.
    unfold gemv_v1_row. unchanged. now apply host_setitem_unchanged.
  - apply gemv_v1_launches.
  - unfold gemv_v1. unchanged. apply unchanged_for_each. intros i.
    unfold gemv_v1_row. unchanged. now apply host_setitem_unchanged.
  - unfold gemv_v2. unchanged.
  - apply gemv_v2_launches.
  - unfold gemv_v2. unchanged.
Qed.

(** ** The dispatch and the listing of versions *)

Lemma startswith_gemv (name : string) :
  startswith "gemv_" name = true <-> exists version, name = "gemv_" +:+ version.
Proof.
  split.
  - destruct name as [|c1 [|c2 [|c3 [|c4 [|c5 rest]]]]]; cbn [startswith];
      try discriminate; try (rewrite ?andb_false_r; discriminate).
    rewrite !andb_true_iff. intros (H1 & H2 & H3 & H4 & H5 & _).
    apply Ascii.eqb_eq in H1, H2, H3, H4, H5. subst. now exists rest.
  - intros [version ->]. reflexivity.
Qed.

Lemma after_underscore_gemv (version : string) :
  after_underscore ("gemv_" +:+ version) = Some version.
Proof. reflexivity. Qed.

(** X9.  The versions listed after an unknown tag are exactly the tags the
    dispatch accepts: [version] is in the list computed from the globals if
    and only if looking up ['gemv_' + version] in them succeeds. *)
Theorem available_versions_are_dispatched (G : list (string * pyobj)) (version : string) :
  version ∈ available_versions G <-> is_Some (lookup_global G ("gemv_" +:+ version)).
Proof.
  unfold available_versions. induction G as [|[k v] G IH].
  - cbn. split; [intros H; now apply elem_of_nil in H|intros [? ?]; discriminate].
  - cbn [omap list_omap lookup_global fst].
    destruct (String.eqb_spec k ("gemv_" +:+ version)) as [->|Hne].
    + assert (Hs : startswith "gemv_" ("gemv_" +:+ version) = true)
        by (apply startswith_gemv; eauto).
      rewrite Hs, after_underscore_gemv. split; [eauto|]. intros _. apply elem_of_cons. now left.
    + rewrite <- IH. destruct (startswith "gemv_" k) eqn:Hs.
      * apply startswith_gemv in Hs as [v' ->]. rewrite after_underscore_gemv.
        rewrite elem_of_cons. split; [|auto]. intros [->|H]; [congruence|exact H].
      * reflexivity.
Qed.

Lemma dispatch_accepts (version : string) :
  version ∈ ["v1"; "v2"; "v3"]%string
  <-> is_Some (lookup_global module_globals ("gemv_" +:+ version)).
Proof.
  split.
  - rewrite !elem_of_cons. intros [->|[->|[->|H]]]; [eexists; reflexivity..|].
    now apply elem_of_nil in H.
  - intros [f Hf]. rewrite !elem_of_cons.
    destruct (dispatch_cases version f Hf) as [[-> _]|[[-> _]|[-> _]]]; auto.
Qed.

(** ** The program as a whole *)

(** X10.  For a dimension argument of ASCII characters and under fair
    scheduling: the program exits with status [0] only when the command line
    is accepted (two arguments at least, a positive integer dimension, a tag
    among [v1], [v2], [v3]) and with status [1] whenever it is not; in exact
    arithmetic no run fails validation; so an accepted run that no run-time
    error stops (an allocation or a device call that fails) exits with
    status [0]. *)
Theorem main_exit_zero_iff_accepted (rt : runtime) (argv : list string) :
  fair rt ->
  is_ascii (argv_at argv 1) = true ->
  ((main rt argv).1 = 0%Z -> accepted argv)
  /\ (~ accepted argv -> (main rt argv).1 = 1%Z)
  /\ (forall found expected,
        ~ validation_fails module_globals rt argv empty_world found expected)
  /\ (accepted argv -> runs_through module_globals rt argv empty_world ->
      (main rt argv).1 = 0%Z).
Proof.
  intros Hfair _.
  assert (Hvalid : forall N kernel found expected w',
            lookup_global module_globals ("gemv_" +:+ argv_at argv 2) = Some kernel ->
            (0 < N)%Z ->
            solve rt kernel N empty_world = (Some (found, expected), w') ->
            validate found expected = Some true).
  { intros N kernel found expected w' Hk HN Hsolve.
    destruct (solve_returns (argv_at argv 2) kernel rt N empty_world Hk Hfair HN)
      as (found' & expected' & w'' & Hsolve' & Hl1 & Hl2 & Heq).
    rewrite Hsolve in Hsolve'. injection Hsolve' as -> -> _.
    apply validate_accepts; [lia|]. now rewrite Hl1. }
  assert (Hrej : ~ accepted argv -> (main rt argv).1 = 1%Z).
  { intros Hnot. unfold main. cbn [fst].
    destruct (Nat.lt_ge_cases (length argv) 3) as [Hlen|Hlen].
    { now rewrite main_block_too_few. }
    destruct (py_int (argv_at argv 1)) as [N|] eqn:Hint.
    2:{ now rewrite main_block_not_integer. }
    destruct (lookup_global module_globals ("gemv_" +:+ argv_at argv 2)) as [kernel|] eqn:Hk.
    2:{ now rewrite (main_block_no_kernel module_globals rt argv empty_world N). }
    destruct (Z.le_gt_cases N 0) as [HN|HN].
    { now rewrite (main_block_not_positive module_globals rt argv empty_world N kernel). }
    exfalso. apply Hnot. repeat split; [exact Hlen|eauto|].
    apply dispatch_accepts. now rewrite Hk. }
  assert (Hdec : accepted argv \/ ~ accepted argv).
  { destruct (Nat.lt_ge_cases (length argv) 3) as [Hlen|Hlen].
    { right. intros (H & _). lia. }
    destruct (py_int (argv_at argv 1)) as [N|] eqn:Hint.
    2:{ right. intros (_ & (N & H & _) & _). congruence. }
    destruct (Z.le_gt_cases N 0) as [HN|HN].
    { right. intros (_ & (N' & H1 & H) & _). assert (N' = N) by congruence. lia. }
    destruct (lookup_global module_globals ("gemv_" +:+ argv_at argv 2)) as [kernel|] eqn:Hk.
    - left. repeat split; [exact Hlen|eauto|]. apply dispatch_accepts. now rewrite Hk.
    - right. intros (_ & _ & Hv). apply dispatch_accepts in Hv as [f Hf]. congruence. }
  split; [|split; [exact Hrej|split]].
  - intros H0. destruct Hdec as [Ha|Hn]; [exact Ha|].
    rewrite (Hrej Hn) in H0. discriminate.
  - intros found expected (N & kernel & w' & _ & _ & Hk & HN & Hsolve & Hfails).
    rewrite (Hvalid N kernel found expected w' Hk HN Hsolve) in Hfails. discriminate.
  - intros (Hlen & (N & Hint & HN) & Hv) Hruns.
    apply dispatch_accepts in Hv as [kernel Hk].
    destruct (Hruns N kernel Hint Hk HN) as (found & expected & w' & Hsolve & _).
    unfold main. cbn [fst].
    now rewrite (main_block_validated module_globals rt argv empty_world N kernel found
                   expected w' true Hlen Hint Hk HN Hsolve
                   (Hvalid N kernel found expected w' Hk HN Hsolve)).
Qed.

Lemma main_exit_zero_iff_accepted_witness :
  (main sample_runtime ["demo.py"; "2"; "v3"]%string).1 = 0%Z.
Proof.
  apply (proj2 (proj2 (proj2
           (main_exit_zero_iff_accepted sample_runtime ["demo.py"; "2"; "v3"]%string
              fair_sample_runtime eq_refl)))).
  - split; [cbn; lia|]. split; [exists 2%Z; split; [reflexivity|lia]|].
    apply (bool_decide_unpack _). vm_compute. exact I.
  - apply main_runs_through, fair_sample_runtime.
Defined.

(** X11.  A rejected command line costs nothing and is reported by the
    first check that fails, in the order of the source: too few arguments,
    then a dimension (of ASCII characters) that [int] does not read as an
    integer, then an unknown version tag (reported with the list of the
    three versions, even when the dimension is not positive), then a
    dimension that is not positive.  In each case the exit status is [1],
    one message is printed (two lines for the first and the third), and no
    array was made, no sample drawn, no kernel launched. *)
Theorem main_rejects (rt : runtime) (argv : list string) :
  (length argv < 3 ->
   main rt argv = (1%Z, mk_world [] [] [] [Err_too_few_arguments; Usage] 0 0))
  /\ (3 <= length argv -> is_ascii (argv_at argv 1) = true ->
      py_int (argv_at argv 1) = None ->
      main rt argv = (1%Z, mk_world [] [] [] [Err_dimension_not_integer] 0 0))
  /\ (forall N, 3 <= length argv -> py_int (argv_at argv 1) = Some N ->
      argv_at argv 2 ∉ ["v1"; "v2"; "v3"]%string ->
      main rt argv
      = (1%Z, mk_world [] [] []
                [Err_no_such_kernel (argv_at argv 2);
                 Available_versions ["v1"; "v2"; "v3"]%string] 0 0))
  /\ (forall N, 3 <= length argv -> py_int (argv_at argv 1) = Some N ->
      argv_at argv 2 ∈ ["v1"; "v2"; "v3"]%string -> (N <= 0)%Z ->
      main rt argv = (1%Z, mk_world [] [] [] [Err_dimension_not_positive] 0 0)).
Proof.
  unfold main. repeat split.
  - intros Hlen. now rewrite main_block_too_few.
  - intros Hlen _ Hint. now rewrite main_block_not_integer.
  - intros N Hlen Hint Hv.
    rewrite (main_block_no_kernel module_globals rt argv empty_world N); try assumption.
    + reflexivity.
    + destruct (lookup_global module_globals ("gemv_" +:+ argv_at argv 2)) eqn:Hk;
        [|reflexivity].
      exfalso. apply Hv, dispatch_accepts. now rewrite Hk.
  - intros N Hlen Hint Hv HN. apply dispatch_accepts in Hv as [kernel Hk].
    now rewrite (main_block_not_positive module_globals rt argv empty_world N kernel).
Qed.

Lemma main_rejects_witness :
  main sample_runtime ["demo.py"]%string
  = (1%Z, mk_world [] [] [] [Err_too_few_arguments; Usage] 0 0)
  /\ main sample_runtime ["demo.py"; "abc"; "v1"]%string
     = (1%Z, mk_world [] [] [] [Err_dimension_not_integer] 0 0)
  /\ main sample_runtime ["demo.py"; String (ascii_of_nat 28) "7"; "v1"]%string
     = (1%Z, mk_world [] [] [] [Err_dimension_not_integer] 0 0)
  /\ main sample_runtime ["demo.py"; "0"; "v9"]%string
     = (1%Z, mk_world [] [] []
               [Err_no_such_kernel (argv_at ["demo.py"; "0"; "v9"]%string 2);
                Available_versions ["v1"; "v2"; "v3"]%string] 0 0)
  /\ main sample_runtime ["demo.py"; "0"; "v1"]%string
     = (1%Z, mk_world [] [] [] [Err_dimension_not_positive] 0 0).
Proof.
  split; [|split; [|split; [|split]]].
  - apply (main_rejects sample_runtime ["demo.py"]%string). cbn. lia.
  - apply (main_rejects sample_runtime ["demo.py"; "abc"; "v1"]%string);
      [cbn; lia|reflexivity|reflexivity].
  - apply (main_rejects sample_runtime
             ["demo.py"; String (ascii_of_nat 28) "7"; "v1"]%string);
      [cbn; lia|reflexivity|reflexivity].
  - apply (main_rejects sample_runtime ["demo.py"; "0"; "v9"]%string) with 0%Z;
      [cbn; lia|reflexivity|].
    apply (bool_decide_unpack _). vm_compute. exact I.
  - apply (main_rejects sample_runtime ["demo.py"; "0"; "v1"]%string) with 0%Z;
      [cbn; lia|reflexivity| |lia].
    apply (bool_decide_unpack _). vm_compute. exact I.
Defined.

(** ** Kernel launches of the program *)

Lemma once_of_unchanged {A : Type} (m : IO A) :
  unchanged launches m -> launches_once_at_most m.
Proof.
  intros H w. exists []. rewrite app_nil_r. split; [apply H|].
  split; [cbn; lia|constructor].
Qed.

Lemma once_bind_l {A B : Type} (m : IO A) (k : A -> IO B) :
  unchanged launches m -> (forall a, launches_once_at_most (k a)) ->
  launches_once_at_most (bind m k).
Proof.
  intros Hm Hk w. unfold bind. specialize (Hm w).
  destruct (m w) as [[a|] w1]; cbn [snd] in *.
  - destruct (Hk a w1) as (new & Hnew & Hone). exists new. now rewrite Hnew, Hm.
  - exists []. rewrite app_nil_r. split; [exact Hm|]. split; [cbn; lia|constructor].
Qed.

Lemma once_bind_r {A B : Type} (m : IO A) (k : A -> IO B) :
  launches_once_at_most m -> (forall a, unchanged launches (k a)) ->
  launches_once_at_most (bind m k).
Proof.
  intros Hm Hk w. unfold bind. destruct (Hm w) as (new & Hnew & Hone).
  destruct (m w) as [[a|] w1]; cbn [snd] in *; exists new.
  - now rewrite Hk.
  - auto.
Qed.

Lemma once_cuda_launch rt num_blocks alpha d_A d_x beta d_y :
  launches_once_at_most
    (cuda_launch rt K_gemv_cuda num_blocks BLOCK_SIZE alpha d_A d_x beta d_y).
Proof.
  unfold cuda_launch.
  repeat (apply once_bind_l; [unchanged|intros ?]).
  intros w. eexists [_]. split; [reflexivity|]. split; [cbn; lia|].
  constructor; [now split|constructor].
Qed.

Lemma once_with_time_region_cuda {A : Type} rt off (body : IO A) :
  launches_once_at_most body -> launches_once_at_most (with_time_region_cuda rt off body).
Proof.
  intros H. unfold with_time_region_cuda.
  apply once_bind_l; [unchanged|intros k].
  apply once_bind_r; [exact H|intros a]. unchanged.
Qed.

Lemma once_with_time_region {A : Type} rt off (body : IO A) :
  launches_once_at_most body -> launches_once_at_most (with_time_region rt off body).
Proof.
  intros H. unfold with_time_region. cbn zeta.
  apply once_bind_l; [unchanged|intros k].
  apply once_bind_r; [exact H|intros a]. unchanged.
Qed.

Lemma once_gemv_v3 rt alpha A x beta y : launches_once_at_most (gemv_v3 rt alpha A x beta y).
Proof.
  unfold gemv_v3.
  apply once_bind_l.
  { unfold with_time_region_cuda, cuda_to_device. unchanged. }
  intros [t_xfer [[d_A d_x] d_y]].
  apply once_bind_l; [unchanged|intros a]. cbn zeta.
  apply once_bind_r; [apply once_with_time_region_cuda, once_cuda_launch|].
  intros [t_kernel []].
  apply unchanged_bind; [unchanged|intros xfer].
  apply unchanged_bind.
  { unfold with_time_region_cuda, copy_to_host. unchanged. }
  intros [t y_ret]. unchanged.
Qed.

Lemma once_solve (version : string) (kernel : pyobj) rt (N : Z) :
  lookup_global module_globals ("gemv_" +:+ version) = Some kernel ->
  launches_once_at_most (solve rt kernel N).
Proof.
  intros Hk. unfold solve.
  apply once_bind_l; [unfold np_random_rand_F; unchanged|intros A].
  apply once_bind_l; [unfold np_random_rand; unchanged|intros x].
  apply once_bind_l; [unchanged|intros y_orig]. cbn zeta.
  apply once_bind_r.
  - apply once_with_time_region.
    destruct (dispatch_cases version kernel Hk) as [[_ ->]|[[_ ->]|[_ ->]]]; cbn [call].
    + apply once_of_unchanged, gemv_v1_launches.
    + apply once_of_unchanged, gemv_v2_launches.
    + apply once_gemv_v3.
  - intros [t_kernel y]. unchanged.
Qed.

(** X12.  Whatever the command line and the run-time, and whether the run
    ends normally or not, the program launches at most one device kernel;
    it is the naive kernel, on blocks of [BLOCK_SIZE] threads. *)
Theorem main_launches_once_at_most (rt : runtime) (argv : list string) :
  one_naive_launch_at_most (launches (main rt argv).2).
Proof.
  assert (H : launches_once_at_most (main_block module_globals rt argv)).
  { unfold main_block.
    destruct (length argv <? 3)%nat; [apply once_of_unchanged; unchanged|].
    destruct (py_int (argv_at argv 1)) as [N|]; [|apply once_of_unchanged; unchanged].
    cbn zeta.
    destruct (lookup_global module_globals ("gemv_" +:+ argv_at argv 2)) as [kernel|] eqn:Hk;
      [|apply once_of_unchanged; unchanged].
    destruct (N <=? 0)%Z; [apply once_of_unchanged; unchanged|].
    apply once_bind_r; [now apply (once_solve (argv_at argv 2))|].
    intros [found expected]. unchanged. destruct a; unchanged. }
  destruct (H empty_world) as (new & Hnew & Hone). unfold main. cbn [snd].
  now rewrite Hnew.
Qed.

(** ** The vector addition wrapper *)

Lemma vecadd_runs rt device_junk N x y (w : world) (xv yv : list Q) :
  host w !! x = Some (Arr1 xv) -> host w !! y = Some (Arr1 yv) ->
  let out := launch_vecadd_cuda (cuda_order rt (grid_blocks N) BLOCK_SIZE) BLOCK_SIZE
               xv yv (device_junk <$> seq 0 (length xv)) in
  exists t_xfer t_kernel,
    vecadd rt device_junk N x y w
    = (Some (length (host w)),
       mk_world
         (host w ++ [Arr1 out])
         (device w ++ [Arr1 xv; Arr1 yv; Arr1 out])
         (launches w)
         (printed w ++ [Cuda_transfer_times t_xfer; Cuda_kernel_time t_kernel])
         (ticks w + 6) (draws w)).
Proof.
  intros Hx Hy out.
  set (h := host w ++ [Arr1 (np_empty_junk rt <$> seq 0 (length xv))]).
  assert (Hx' : h !! x = Some (Arr1 xv)).
  { subst h. rewrite lookup_app_l; [exact Hx|]. now apply lookup_lt_Some in Hx. }
  assert (Hy' : h !! y = Some (Arr1 yv)).
  { subst h. rewrite lookup_app_l; [exact Hy|]. now apply lookup_lt_Some in Hy. }
  assert (Hr : h !! length (host w)
               = Some (Arr1 (np_empty_junk rt <$> seq 0 (length xv)))).
  { subst h. now apply list_lookup_middle. }
  assert (Hins : forall v, <[length (host w) := v]> h = host w ++ [v]).
  { intros v. subst h. rewrite insert_app_r_alt, Nat.sub_diag by lia. reflexivity. }
  set (d := ((device w ++ [Arr1 xv]) ++ [Arr1 yv])
            ++ [Arr1 (device_junk <$> seq 0 (length xv))]).
  assert (H0 : d !! length (device w) = Some (Arr1 xv)).
  { subst d. rewrite <- !app_assoc. now apply list_lookup_middle. }
  assert (H1 : d !! length (device w ++ [Arr1 xv]) = Some (Arr1 yv)).
  { subst d. rewrite <- (app_assoc _ [Arr1 yv]). now apply list_lookup_middle. }
  assert (H2 : d !! length ((device w ++ [Arr1 xv]) ++ [Arr1 yv])
               = Some (Arr1 (device_junk <$> seq 0 (length xv)))).
  { subst d. now apply list_lookup_middle. }
  assert (H3 : forall v, <[length ((device w ++ [Arr1 xv]) ++ [Arr1 yv]) := v]> d
                         = device w ++ [Arr1 xv; Arr1 yv; v]).
  { intros v. subst d. rewrite insert_app_r_alt, Nat.sub_diag by lia.
    cbn. now rewrite <- !app_assoc. }
  assert (H4 : forall v, (device w ++ [Arr1 xv; Arr1 yv; v])
                         !! length ((device w ++ [Arr1 xv]) ++ [Arr1 yv]) = Some v).
  { intros v. rewrite <- app_assoc, length_app. cbn [app length].
    now rewrite lookup_app_after. }
  eexists. eexists.
  unfold vecadd, with_time_region_cuda, cuda_to_device, cuda_device_array_like,
    copy_to_host_into, cuda_launch_vecadd, elapsed_time_cuda, bind, get, ret, raise, tick,
    print, host_read, host_alloc, device_read, device_alloc, device_write.
  repeat (cbn [host device set_host set_device launches printed ticks draws fst snd
               cuda_t_start cuda_t_end cuda_time_off as_2d as_1d ret raise empty_like];
          fold h; fold d;
          first [rewrite Hx | rewrite Hx' | rewrite Hy' | rewrite Hr | rewrite Hins
                | rewrite H0 | rewrite H1 | rewrite H2 | rewrite H3 | rewrite H4]).
  cbn [host device set_host set_device launches printed ticks draws fst snd
       cuda_t_start cuda_t_end cuda_time_off as_2d as_1d ret raise empty_like].
  rewrite <- app_assoc. cbn [app]. subst out.
  f_equal. f_equal. lia.
Qed.

(** X14.  [vecadd] on two host vectors, [y] at least as long as [x]: the
    call returns a new host vector of the length of [x] and leaves the
    arguments as they were.  Its grid is computed from the global [N], not
    from the length of [x]: the element [i] of the result is [x[i] + y[i]]
    where the grid of [N // BLOCK_SIZE] blocks (one more when
    [N % BLOCK_SIZE] is not zero) reaches, and past it what the new device
    buffer held.  So the result is the sum of the two vectors whenever [x] is
    not longer than [N]. *)
Theorem vecadd_sum_within_grid (rt : runtime) (device_junk : nat -> Q) (N x y : nat)
    (w : world) (xv yv : list Q) :
  fair rt -> 0 < N ->
  host w !! x = Some (Arr1 xv) -> host w !! y = Some (Arr1 yv) ->
  length xv <= length yv ->
  exists out w',
    vecadd rt device_junk N x y w = (Some (length (host w)), w')
    /\ host w' = host w ++ [Arr1 out]
    /\ length out = length xv
    /\ (forall i, i < length xv ->
        at1 out i = if (i <? grid_blocks N * BLOCK_SIZE)%nat
                    then (at1 xv i + at1 yv i)%Q else device_junk i)
    /\ (length xv <= N ->
        forall i, i < length xv -> at1 out i = (at1 xv i + at1 yv i)%Q).
Proof.
  intros (_ & Hsched & _) HN Hx Hy Hlen.
  destruct (vecadd_runs rt device_junk N x y w xv yv Hx Hy) as (t1 & t2 & Hrun).
  cbn zeta in Hrun. do 2 eexists. split; [exact Hrun|]. cbn [host].
  split; [reflexivity|].
  set (z := device_junk <$> seq 0 (length xv)).
  assert (Hz : length z = length xv) by (subst z; now rewrite length_fmap, length_seq).
  assert (Hat : forall i, i < length xv ->
            at1 (launch_vecadd_cuda (cuda_order rt (grid_blocks N) BLOCK_SIZE) BLOCK_SIZE
                   xv yv z) i
            = if (i <? grid_blocks N * BLOCK_SIZE)%nat
              then (at1 xv i + at1 yv i)%Q else device_junk i).
  { intros i Hi.
    assert (Hxz : length xv <= length z) by lia.
    pose proof (launch_vecadd_cuda_at xv yv z (grid_blocks N) BLOCK_SIZE
                (cuda_order rt (grid_blocks N) BLOCK_SIZE) i Hxz
                (Hsched (grid_blocks N) BLOCK_SIZE)) as Hv.
    rewrite Hv. destruct (Nat.ltb_spec i (length xv)); [|lia]. cbn [andb].
    destruct (i <? grid_blocks N * BLOCK_SIZE)%nat; [reflexivity|].
    subst z. unfold at1. rewrite list_lookup_fmap, lookup_seq_lt by exact Hi.
    reflexivity. }
  split; [now rewrite launch_vecadd_cuda_length|].
  split; [exact Hat|].
  intros HxN i Hi. rewrite (Hat i Hi).
  pose proof (grid_blocks_covers N).
  destruct (Nat.ltb_spec i (grid_blocks N * BLOCK_SIZE)); [reflexivity|lia].
Qed.

Lemma vecadd_sum_within_grid_witness :
  exists out w',
    vecadd sample_runtime (fun _ => 9%Q) 2 1 2 sample_world
    = (Some (length (host sample_world)), w')
    /\ host w' = host sample_world ++ [Arr1 out]
    /\ length out = length [1; 1]%Q
    /\ (forall i, i < length [1; 1]%Q ->
        at1 out i = if (i <? grid_blocks 2 * BLOCK_SIZE)%nat
                    then (at1 [1; 1] i + at1 [10; 20] i)%Q else 9%Q)
    /\ (length [1; 1]%Q <= 2 ->
        forall i, i < length [1; 1]%Q -> at1 out i = (at1 [1; 1] i + at1 [10; 20] i)%Q).
Proof.
  apply (vecadd_sum_within_grid sample_runtime (fun _ => 9%Q) 2 1 2 sample_world
           [1; 1]%Q [10; 20]%Q).
  - apply fair_sample_runtime.
  - lia.
  - reflexivity.
  - reflexivity.
  - cbn. lia.
Defined.
(** ** Shapes that do not match *)

Lemma lookup_at1 (l : list Q) (i : nat) : i < length l -> l !! i = Some (at1 l i).
Proof.
  intros Hi. unfold at1. destruct (lookup_lt_is_Some_2 l i Hi) as [a Ha]. now rewrite Ha.
Qed.

Lemma np_add_broadcast (u v : list Q) :
  (length u = length v \/ length u = 1 \/ length v = 1 ->
   exists s, np_add u v = Some s
     /\ length s = (if (length v =? 1)%nat then length u else length v)
     /\ forall i, i < length s ->
          at1 s i = (at1 u (if (length u =? 1)%nat then 0 else i)
                     + at1 v (if (length v =? 1)%nat then 0 else i))%Q)
  /\ (~ (length u = length v \/ length u = 1 \/ length v = 1) -> np_add u v = None).
Proof.
  unfold np_add, np_broadcast. split.
  - intros Hshape.
    destruct (Nat.eqb_spec (length u) (length v)) as [Heq|Hne].
    + eexists. split; [reflexivity|]. split.
      * rewrite length_fmap, length_zip. destruct (Nat.eqb_spec (length v) 1); lia.
      * intros i Hi. rewrite length_fmap, length_zip in Hi.
        assert (Hsame : (if (length u =? 1)%nat then 0 else i)
                        = (if (length v =? 1)%nat then 0 else i)) by now rewrite Heq.
        rewrite Hsame.
        assert (Hi0 : (if (length v =? 1)%nat then 0 else i) = i).
        { destruct (Nat.eqb_spec (length v) 1); lia. }
        rewrite Hi0. unfold at1. rewrite list_lookup_fmap.
        destruct (lookup_lt_is_Some_2 u i ltac:(lia)) as [a Ha].
        destruct (lookup_lt_is_Some_2 v i ltac:(lia)) as [b Hb].
        rewrite (proj2 (lookup_zip_with_Some pair u v i (a, b))); [|eauto].
        now rewrite Ha, Hb.
    + destruct (Nat.eqb_spec (length u) 1) as [Hu|Hu].
      * eexists. split; [reflexivity|]. split.
        { rewrite !length_fmap. destruct (Nat.eqb_spec (length v) 1); lia. }
        intros i Hi. rewrite !length_fmap in Hi.
        destruct (Nat.eqb_spec (length v) 1); [lia|].
        set (c := at1 u 0). set (b := at1 v i).
        unfold at1. rewrite !list_lookup_fmap, (lookup_at1 v i Hi). reflexivity.
      * destruct (Nat.eqb_spec (length v) 1) as [Hv|Hv]; [|lia].
        eexists. split; [reflexivity|]. split; [now rewrite !length_fmap|].
        intros i Hi. rewrite !length_fmap in Hi.
        set (c := at1 v 0). set (a := at1 u i).
        unfold at1. rewrite !list_lookup_fmap, (lookup_at1 u i Hi). reflexivity.
  - intros Hnot.
    destruct (Nat.eqb_spec (length u) (length v)); [tauto|].
    destruct (Nat.eqb_spec (length u) 1); [tauto|].
    destruct (Nat.eqb_spec (length v) 1); [tauto|reflexivity].
Qed.

Lemma at1_np_scale (c : Q) (v : list Q) (i : nat) :
  i < length v -> at1 (np_scale c v) i = (c * at1 v i)%Q.
Proof.
  intros Hi. set (q := at1 v i). unfold np_scale, at1.
  rewrite list_lookup_fmap, (lookup_at1 v i Hi). reflexivity.
Qed.

(** X15.  [gemv_v2] on operands whose shapes need not match, as numpy
    treats them.  The call returns exactly when [x] has as many elements as
    [A] has columns and [y] broadcasts against the rows of [A] (as many
    elements as rows, or one of the two is [1]); otherwise it raises.  A
    [y] of one element is added to every row, and a matrix of one row gives
    a result as long as [y]: no error is reported in these cases. *)
Theorem gemv_v2_broadcasts_or_raises (alpha beta : Q) (A x y : nat) (w : world)
    (a : ndarray2) (xv yv : list Q) :
  host w !! A = Some (Arr2 a) -> host w !! x = Some (Arr1 xv) ->
  host w !! y = Some (Arr1 yv) ->
  let fits :=
    length xv = shape1 a
    /\ (shape0 a = length yv \/ shape0 a = 1 \/ length yv = 1) in
  (fits ->
   exists r out,
     (gemv_v2 alpha A x beta y w).1 = Some r
     /\ host (gemv_v2 alpha A x beta y w).2 !! r = Some (Arr1 out)
     /\ length out = (if (length yv =? 1)%nat then shape0 a else length yv)
     /\ forall i, i < length out ->
          at1 out i
          = (alpha * row_dot a xv (if (shape0 a =? 1)%nat then 0 else i) (shape1 a)
             + beta * at1 yv (if (length yv =? 1)%nat then 0 else i))%Q)
  /\ (~ fits -> (gemv_v2 alpha A x beta y w).1 = None).
Proof.
  intros HA Hx Hy fits.
  set (Ax := (fun i => row_dot a xv i (shape1 a)) <$> seq 0 (shape0 a)).
  assert (HlA : length (np_scale alpha Ax) = shape0 a).
  { unfold np_scale, Ax. now rewrite !length_fmap, length_seq. }
  assert (Hly : length (np_scale beta yv) = length yv).
  { unfold np_scale. now rewrite length_fmap. }
  assert (Hrun : gemv_v2 alpha A x beta y w
                 = if (length xv =? shape1 a)%nat
                   then
                     match np_add (np_scale alpha Ax) (np_scale beta yv) with
                     | Some sum =>
                         (Some (length (host w) + 3),
                          set_host (host w ++ [Arr1 Ax; Arr1 (np_scale alpha Ax);
                                               Arr1 (np_scale beta yv); Arr1 sum]) w)
                     | None =>
                         (None,
                          set_host (host w ++ [Arr1 Ax; Arr1 (np_scale alpha Ax);
                                               Arr1 (np_scale beta yv)]) w)
                     end
                   else (None, w)).
  { unfold gemv_v2.
    rewrite (bind_returns _ _ _ _ a (read_2d _ _ _ HA)).
    rewrite (bind_returns _ _ _ _ xv (read_1d _ _ _ Hx)).
    unfold np_matmul. fold Ax. destruct (length xv =? shape1 a)%nat; [|reflexivity].
    cbn [get]. unfold bind at 1, ret at 1.
    unfold bind at 1, host_alloc at 1. unfold bind at 1, host_alloc at 1.
    set (w2 := set_host _ (set_host _ w)).
    assert (Hy2 : host w2 !! y = Some (Arr1 yv)).
    { subst w2. cbn [host set_host].
      now rewrite <- !app_assoc, (lookup_app_l_Some _ _ _ _ Hy). }
    rewrite (bind_returns _ _ _ _ yv (read_1d w2 y yv Hy2)).
    unfold bind at 1, host_alloc at 1.
    destruct (np_add (np_scale alpha Ax) (np_scale beta yv)) as [sum|];
      cbn [get]; unfold bind, ret, raise, host_alloc;
      subst w2; cbn [host set_host]; rewrite ?length_app; cbn [length];
      rewrite <- !app_assoc; cbn [app]; [|reflexivity].
    f_equal. f_equal. lia. }
  destruct (np_add_broadcast (np_scale alpha Ax) (np_scale beta yv)) as [Hok Hbad].
  rewrite HlA, Hly in Hok, Hbad. rewrite Hrun. split.
  - intros [Hxv Hshape]. rewrite (proj2 (Nat.eqb_eq _ _) Hxv).
    destruct (Hok Hshape) as (sum & -> & Hlen & Hat). cbn [fst snd host set_host].
    exists (length (host w) + 3), sum. split; [reflexivity|].
    split.
    { replace (length (host w) + 3) with (length (host w ++ [Arr1 Ax; Arr1 (np_scale alpha Ax);
                                               Arr1 (np_scale beta yv)]))
        by (rewrite length_app; reflexivity).
      change [Arr1 Ax; Arr1 (np_scale alpha Ax); Arr1 (np_scale beta yv); Arr1 sum]
        with ([Arr1 Ax; Arr1 (np_scale alpha Ax); Arr1 (np_scale beta yv)] ++ [Arr1 sum]).
      rewrite app_assoc. now apply list_lookup_middle. }
    split; [exact Hlen|].
    intros i Hi. rewrite (Hat i Hi). rewrite Hlen in Hi.
    assert (Hrow : (if (shape0 a =? 1)%nat then 0 else i) < shape0 a).
    { destruct (Nat.eqb_spec (shape0 a) 1), (Nat.eqb_spec (length yv) 1); lia. }
    assert (Hel : (if (length yv =? 1)%nat then 0 else i) < length yv).
    { destruct (Nat.eqb_spec (length yv) 1); lia. }
    rewrite !at1_np_scale; [|exact Hel|subst Ax; now rewrite length_fmap, length_seq].
    subst Ax. now rewrite at1_fmap_seq.
  - intros Hnot. destruct (Nat.eqb_spec (length xv) (shape1 a)) as [Hxv|Hxv]; [|reflexivity].
    rewrite Hbad; [reflexivity|]. intros Hshape. apply Hnot. now split.
Qed.

Lemma gemv_v2_broadcasts_or_raises_witness :
  (exists r out,
     (gemv_v2 2 0 1 1 2 sample_world).1 = Some r
     /\ host (gemv_v2 2 0 1 1 2 sample_world).2 !! r = Some (Arr1 out)
     /\ length out = (if (length [10; 20]%Q =? 1)%nat
                      then shape0 (mk_ndarray2 2 2 [1; 2; 3; 4]%Q) else length [10; 20]%Q)
     /\ forall i, i < length out ->
          at1 out i
          = (2 * row_dot (mk_ndarray2 2 2 [1; 2; 3; 4]%Q) [1; 1]
                   (if (shape0 (mk_ndarray2 2 2 [1; 2; 3; 4]%Q) =? 1)%nat then 0 else i)
                   (shape1 (mk_ndarray2 2 2 [1; 2; 3; 4]%Q))
             + 1 * at1 [10; 20] (if (length [10; 20]%Q =? 1)%nat then 0 else i))%Q)
  /\ (gemv_v2 2 0 1 1 2
        (mk_world [Arr2 (mk_ndarray2 2 2 [1; 2; 3; 4]%Q); Arr1 [1; 1]%Q; Arr1 [10; 20; 30]%Q]
           [] [] [] 0 0)).1 = None.
Proof.
  split.
  - apply (proj1 (gemv_v2_broadcasts_or_raises 2 1 0 1 2 sample_world
                    (mk_ndarray2 2 2 [1; 2; 3; 4]%Q) [1; 1]%Q [10; 20]%Q
                    eq_refl eq_refl eq_refl)).
    split; [reflexivity|left; reflexivity].
  - apply (proj2 (gemv_v2_broadcasts_or_raises 2 1 0 1 2
                    (mk_world [Arr2 (mk_ndarray2 2 2 [1; 2; 3; 4]%Q); Arr1 [1; 1]%Q;
                               Arr1 [10; 20; 30]%Q] [] [] [] 0 0)
                    (mk_ndarray2 2 2 [1; 2; 3; 4]%Q) [1; 1]%Q [10; 20; 30]%Q
                    eq_refl eq_refl eq_refl)).
    intros [_ [H|[H|H]]]; discriminate H.
Defined.
